(** * Unix crash-log handler (src/os/unix/crashlog_unix.cpp)

    A shallow embedding of the signal registration, the guarded execution
    wrapper [TryExecute], the two signal handlers [HandleCrash] and
    [HandleInternalCrash], and the OS-fact producers [LogOSVersion] and
    [LogStacktrace], followed by the properties the specification states
    about them.

    Modelling choices, in the order of the source file:
    - [int] signal numbers are [Z]; the numeric values of the [SIG*] macros
      and of [SA_RESTART] come from <signal.h>, which is a system header, so
      they are parameters (class [signal_h]);
    - [sigset_t] is a finite set of signal numbers ([gset Z]);
    - the kernel's table of signal dispositions is a finite map from signal
      numbers to [sigaction] records;
    - [CrashLogUnix] objects live in an object store addressed by index;
      [CrashLogUnix::current] is a nullable address into it, so that the
      [this] of [TryExecute] and the [current] read by [HandleInternalCrash]
      may or may not alias;
    - [_exit], [longjmp], a fatal signal and undefined behaviour are abrupt
      completions of a computation in a state-and-abrupt-completion monad;
    - [std::string] output buffers are [string]s, [fmt::format_to] appends. *)

From Stdlib Require Import ZArith String Ascii DecimalString.
From stdpp Require Import base gmap sets list strings.

(** ** <signal.h> *)

(** The constants of <signal.h> the translation unit uses. *)
Class signal_h := {
  SIGSEGV : Z;
  SIGABRT : Z;
  SIGFPE : Z;
  SIGBUS : Z;
  SIGILL : Z;
  SIGQUIT : Z;
  SA_RESTART : Z
}.

(** The values on Linux (x86, ARM and most other architectures). *)
Definition linux_signal_h : signal_h := {|
  SIGSEGV := 11;
  SIGABRT := 6;
  SIGFPE := 8;
  SIGBUS := 7;
  SIGILL := 4;
  SIGQUIT := 3;
  SA_RESTART := 268435456
|}.

(** [sigset_t]. *)
Abbreviation sigset_t := (gset Z).

Definition sigemptyset : sigset_t := ∅.
Definition sigaddset (set : sigset_t) (signum : Z) : sigset_t := set ∪ {[signum]}.

(** The two functions of this translation unit whose address is taken and
    handed to [sigaction]. *)
Inductive handler_fn :=
| HandleCrash_fn
| HandleInternalCrash_fn.

(** [struct sigaction], the fields the code sets. *)
Record sigaction_t := {
  sa_handler : handler_fn;
  sa_mask : sigset_t;
  sa_flags : Z
}.

(** ** Process state *)

(** [class CrashLogUnix]: the signal number and the flag; the [jmp_buf] is
    identified with the object that holds it (see [LongJmp]). *)
Record CrashLogUnix := {
  signum : Z;
  try_execute_active : bool
}.

(** Calls into the collaborators, recorded in program order. *)
Inductive event :=
| EvTestEmergency
| EvSaveloadCrashWithMissingNewGRFs
| EvMakeCrashLog (this : nat)
| EvAfterCrashLogCleanup.

Record process := {
  heap : list CrashLogUnix;            (* the CrashLogUnix objects, by address *)
  current : option nat;                (* CrashLogUnix::current, None = nullptr *)
  sigactions : gmap Z sigaction_t;     (* dispositions installed by sigaction() *)
  sigmask : sigset_t;                  (* blocked signals of the thread *)
  console : list string;               (* what fmt::print wrote to stdout *)
  trace : list event                   (* collaborator calls so far *)
}.

Definition with_heap (h : list CrashLogUnix) (s : process) : process :=
  {| heap := h; current := current s; sigactions := sigactions s;
     sigmask := sigmask s; console := console s; trace := trace s |}.

Definition with_current (c : option nat) (s : process) : process :=
  {| heap := heap s; current := c; sigactions := sigactions s;
     sigmask := sigmask s; console := console s; trace := trace s |}.

Definition with_sigactions (t : gmap Z sigaction_t) (s : process) : process :=
  {| heap := heap s; current := current s; sigactions := t;
     sigmask := sigmask s; console := console s; trace := trace s |}.

Definition with_sigmask (m : sigset_t) (s : process) : process :=
  {| heap := heap s; current := current s; sigactions := sigactions s;
     sigmask := m; console := console s; trace := trace s |}.

Definition with_console (c : list string) (s : process) : process :=
  {| heap := heap s; current := current s; sigactions := sigactions s;
     sigmask := sigmask s; console := c; trace := trace s |}.

Definition with_trace (t : list event) (s : process) : process :=
  {| heap := heap s; current := current s; sigactions := sigactions s;
     sigmask := sigmask s; console := console s; trace := t |}.

(** ** Computations *)

(** The ways a call does not return to its caller. *)
Inductive abrupt :=
| Exit (status : Z)              (* _exit(status) *)
| LongJmp (env : nat) (val : Z)  (* longjmp(obj->internal_fault_jmp_buf, val), obj at address env *)
| Killed (sig : Z)               (* the kernel terminated the process on signal sig *)
| Undefined                      (* a dangling CrashLogUnix pointer was dereferenced *)
| OutOfFuel.                     (* the bound on nested handler frames of the model was hit *)

Inductive outcome (A : Type) :=
| Normal (a : A)
| Abrupt (e : abrupt).
Arguments Normal {A} a.
Arguments Abrupt {A} e.

Definition M (A : Type) : Type := process → outcome A * process.

(** The result type of a function that never returns. *)
Definition noreturn : Type := Empty_set.

Definition ret {A} (a : A) : M A := λ s, (Normal a, s).

Definition bind {A B} (m : M A) (k : A → M B) : M B := λ s,
  match m s with
  | (Normal a, s') => k a s'
  | (Abrupt e, s') => (Abrupt e, s')
  end.

Definition throw {A} (e : abrupt) : M A := λ s, (Abrupt e, s).

(** A call of a function that never returns, in a context that expects an [A]. *)
Definition diverge {A} (m : M noreturn) : M A :=
  bind m (λ e : noreturn, match e with end).

Notation "'let*' x ':=' m 'in' k" := (bind m (λ x, k))
  (at level 10, x name, m at level 100, k at level 200, only parsing).
Notation "m ';;' k" := (bind m (λ _, k))
  (at level 100, k at level 200, right associativity, only parsing).

Definition gets {A} (f : process → A) : M A := λ s, (Normal (f s), s).
Definition modify (f : process → process) : M unit := λ s, (Normal tt, f s).

(** ** libc and the collaborators *)

Definition _exit {A} (status : Z) : M A := throw (Exit status).
Definition longjmp {A} (env : nat) (val : Z) : M A := throw (LongJmp env val).

(** What [setjmp] returns when control comes back through [longjmp(env, val)]. *)
Definition setjmp_resumed (val : Z) : Z := if (val =? 0)%Z then 1%Z else val.

(** [fmt::print(text)]. *)
Definition fmt_print (text : string) : M unit :=
  modify (λ s, with_console (console s ++ [text]) s).

Definition log_event (e : event) : M unit :=
  modify (λ s, with_trace (trace s ++ [e]) s).

(** [sigprocmask(SIG_UNBLOCK, &set, &old)]: returns the previous mask. *)
Definition sigprocmask_unblock (set : sigset_t) : M sigset_t := λ s,
  (Normal (sigmask s), with_sigmask (sigmask s ∖ set) s).

(** [sigaction(signum, &sa, nullptr)]. *)
Definition sigaction (signum : Z) (sa : sigaction_t) : M unit :=
  modify (λ s, with_sigactions (<[signum := sa]> (sigactions s)) s).

(** [CrashLog::AfterCrashLogCleanup()], a collaborator whose body is not among
    the sources: the call is recorded, and it is taken to return. *)
Definition AfterCrashLogCleanup : M unit := log_event EvAfterCrashLogCleanup.

(** [new CrashLogUnix(signum)]: the object is placed at the next free address. *)
Definition new_CrashLogUnix (signum : Z) : M nat := λ s,
  (Normal (length (heap s)),
   with_heap (heap s ++ [{| signum := signum; try_execute_active := false |}]) s).

(** [p->try_execute_active]. *)
Definition load_try_execute_active (p : nat) : M bool := λ s,
  match heap s !! p with
  | Some o => (Normal (try_execute_active o), s)
  | None => (Abrupt Undefined, s)
  end.

(** The object [o] with its flag set to [b]. *)
Definition assign_try_execute_active (b : bool) (o : CrashLogUnix) : CrashLogUnix :=
  {| signum := signum o; try_execute_active := b |}.

(** The state in which the flag of the object at address [p] is [b]. *)
Definition flag_set (p : nat) (b : bool) (s : process) : process :=
  with_heap (alter (assign_try_execute_active b) p (heap s)) s.

(** [p->try_execute_active = b]. *)
Definition store_try_execute_active (p : nat) (b : bool) : M unit := λ s,
  match heap s !! p with
  | Some _ => (Normal tt, flag_set p b s)
  | None => (Abrupt Undefined, s)
  end.

Section CrashLogUnix.
Context `{signal_h}.

(** The signals we want our crash handler to handle. *)
Definition _signals_to_handle : list Z :=
  [SIGSEGV; SIGABRT; SIGFPE; SIGBUS; SIGILL; SIGQUIT].

(** [sigemptyset(&sigs); for (int signum : _signals_to_handle) sigaddset(&sigs, signum);] *)
Definition build_sigs : sigset_t := foldl sigaddset sigemptyset _signals_to_handle.

(** [for (int signum : _signals_to_handle) sigaction(signum, &sa, nullptr);] *)
Fixpoint sigaction_each (signums : list Z) (sa : sigaction_t) : M unit :=
  match signums with
  | [] => ret tt
  | signum :: rest => sigaction signum sa ;; sigaction_each rest sa
  end.

Definition SetSignals (handler : handler_fn) : M sigset_t :=
  let sigs := build_sigs in
  let sa := {| sa_handler := handler; sa_mask := sigs; sa_flags := SA_RESTART |} in
  sigaction_each _signals_to_handle sa ;;
  ret sigs.

(** *** Guarded execution *)

(** [setjmp(obj->internal_fault_jmp_buf)] for the object at address [env],
    together with the code that runs after it: [body 0] is the direct
    return; a [longjmp] to the same buffer from inside it re-enters the
    code with the non-zero value [setjmp_resumed val]. *)
Definition setjmp {A} (env : nat) (body : Z → M A) : M A := λ s,
  match body 0%Z s with
  | (Abrupt (LongJmp env' val), s') =>
      if decide (env' = env) then body (setjmp_resumed val) s'
      else (Abrupt (LongJmp env' val), s')
  | r => r
  end.

Definition nl : string := String (ascii_of_nat 10) EmptyString.

Definition TryExecute_diagnostic (section_name : string) : string :=
  "Something went wrong when attempting to fill " +:+ section_name
    +:+ " section of the crash log." +:+ nl.

(** [bool CrashLogUnix::TryExecute(std::string_view section_name,
    std::function<bool()> &&func)], called on the object at address [this]. *)
Definition TryExecute (this : nat) (section_name : string) (func : M bool) : M bool :=
  store_try_execute_active this true ;;
  (* Setup a longjump in case a crash happens. *)
  setjmp this (λ r,
    if negb (r =? 0)%Z then
      fmt_print (TryExecute_diagnostic section_name) ;;
      (* Reset the signals and continue on. *)
      let sigs := build_sigs in
      sigprocmask_unblock sigs ;;
      store_try_execute_active this false ;;
      ret false
    else
      let* res := func in
      store_try_execute_active this false ;;
      ret res).

(** *** The handlers *)

Definition HandleInternalCrash_notice : string :=
  "Something went seriously wrong when creating the crash log. Aborting." +:+ nl.

(** [static void HandleInternalCrash(int signum)]; the condition is
    [current == nullptr || !current->try_execute_active], evaluated left
    to right. *)
Definition HandleInternalCrash (signum : Z) : M noreturn :=
  let abort : M noreturn :=
    fmt_print HandleInternalCrash_notice ;;
    _exit 1 in
  let* cur := gets current in
  match cur with
  | None => abort
  | Some p =>
      let* active := load_try_execute_active p in
      if active : bool then longjmp p 1 else abort
  end.

Definition shutdown_notice : string :=
  "A serious fault condition occurred in the game. The game will shut down." +:+ nl.
Definition emergency_notice : string :=
  "As you loaded an emergency savegame no crash information will be generated." +:+ nl.
Definition newgrf_notice_1 : string :=
  "As you loaded an savegame for which you do not have the required NewGRFs" +:+ nl.
Definition newgrf_notice_2 : string :=
  "no crash information will be generated." +:+ nl.

(** What [HandleCrash] gets from the rest of the program: the answers of
    [_gamelog.TestEmergency()] and [SaveloadCrashWithMissingNewGRFs()], and
    the inherited [CrashLog::MakeCrashLog], called on the new object. *)
Record collaborators := {
  TestEmergency : bool;
  SaveloadCrashWithMissingNewGRFs : bool;
  MakeCrashLog : nat → M unit
}.

Definition call_TestEmergency (c : collaborators) : M bool :=
  log_event EvTestEmergency ;; ret (TestEmergency c).

Definition call_SaveloadCrashWithMissingNewGRFs (c : collaborators) : M bool :=
  log_event EvSaveloadCrashWithMissingNewGRFs ;; ret (SaveloadCrashWithMissingNewGRFs c).

Definition call_MakeCrashLog (c : collaborators) (log : nat) : M unit :=
  log_event (EvMakeCrashLog log) ;; MakeCrashLog c log.

(** [static void HandleCrash(int signum)]. *)
Definition HandleCrash (c : collaborators) (signum : Z) : M noreturn :=
  let* cur := gets current in
  if cur is Some _ then
    AfterCrashLogCleanup ;;
    _exit 2
  else
    (* Capture crashing during the handling of a crash. *)
    let* sigs := SetSignals HandleInternalCrash_fn in
    let* old_sigset := sigprocmask_unblock sigs in
    let* emergency := call_TestEmergency c in
    if emergency : bool then
      fmt_print shutdown_notice ;;
      fmt_print emergency_notice ;;
      _exit 3
    else
    let* missing := call_SaveloadCrashWithMissingNewGRFs c in
    if missing : bool then
      fmt_print shutdown_notice ;;
      fmt_print newgrf_notice_1 ;;
      fmt_print newgrf_notice_2 ;;
      _exit 3
    else
      let* log := new_CrashLogUnix signum in
      modify (with_current (Some log)) ;;
      call_MakeCrashLog c log ;;
      AfterCrashLogCleanup ;;
      _exit 2.

(** [CrashLog::InitialiseCrashLog()]. *)
Definition InitialiseCrashLog : M unit :=
  SetSignals HandleCrash_fn ;; ret tt.

(** [CrashLog::InitThread()]. *)
Definition InitThread : M unit := ret tt.

(** *** Signal delivery and report composition *)

(** Delivery of the fault [sig] raised by the running code, a synchronous
    fault that leaves room on the stack for the frame of a handler (for one
    that does not, see [stack_exhausted]). Without a handler of this unit
    the default action ends the process, and so does a fault raised while
    its signal is blocked. Otherwise the handler runs with [sa_mask] and the
    signal itself added to the blocked set; it never returns. [run] says
    what code a handler address stands for. *)
Definition deliver (run : handler_fn → Z → M noreturn) (sig : Z) : M noreturn := λ s,
  match sigactions s !! sig with
  | None => (Abrupt (Killed sig), s)
  | Some sa =>
      if decide (sig ∈ sigmask s) then (Abrupt (Killed sig), s)
      else run (sa_handler sa) sig (with_sigmask (sigmask s ∪ sa_mask sa ∪ {[sig]}) s)
  end.

(** A fault that leaves no room on the stack: stack exhaustion. The kernel
    can run a handler for it on an alternate stack only, that is, when the
    disposition has [SA_ONSTACK] and [sigaltstack] was called. [SetSignals]
    sets [sa_flags] to [SA_RESTART] alone and nothing in this unit calls
    [sigaltstack], so no handler of this unit runs, whatever the
    dispositions are: the process ends on [SIGSEGV]. *)
Definition stack_exhausted : M noreturn := throw (Killed SIGSEGV).

(** A diagnostic-gathering step either runs to completion and reports
    success or failure, or raises a fault on the way, with room left on the
    stack (see [deliver]). *)
Inductive step_behaviour :=
| StepReturns (res : bool)
| StepFaults (sig : Z).

Definition run_step (raise : Z → M noreturn) (b : step_behaviour) : M bool :=
  match b with
  | StepReturns res => ret res
  | StepFaults sig => diverge (raise sig)
  end.

(** What report composition does, one item after the other: a step run
    through [TryExecute], a fault raised by the composing code itself
    outside of any guarded step, or a step run through [TryExecute] that
    exhausts the stack. *)
Inductive composition_item :=
| Guarded (label : string) (step : step_behaviour)
| FaultOutsideGuard (sig : Z)
| GuardedStackExhaustion (label : string).

(** Modelled from the spec: [CrashLog::MakeCrashLog] (crashlog.cpp) is not
    part of the sources at hand. Report composition calls RunGuarded
    ([TryExecute]) once per diagnostic-gathering step, in sequence, and
    returns nothing; the results of the steps do not stop it. A fault
    outside any guarded step is delivered like any other. *)
Fixpoint MakeCrashLog_model (raise : Z → M noreturn) (items : list composition_item)
    (this : nat) : M unit :=
  match items with
  | [] => ret tt
  | Guarded label step :: rest =>
      TryExecute this label (run_step raise step) ;;
      MakeCrashLog_model raise rest this
  | FaultOutsideGuard sig :: rest => diverge (raise sig)
  | GuardedStackExhaustion label :: rest =>
      TryExecute this label (diverge stack_exhausted) ;;
      MakeCrashLog_model raise rest this
  end.

(** One fault-handling episode: the answers of the two pre-checks and what
    happens during report composition. *)
Record episode := {
  emergency : bool;
  missing_newgrfs : bool;
  items : list composition_item
}.

(** The code behind a handler address. [depth] bounds the number of
    [HandleCrash] frames that may be stacked on top of each other. *)
Fixpoint run_handler (depth : nat) (ep : episode) (h : handler_fn) (signum : Z)
    : M noreturn :=
  match h with
  | HandleInternalCrash_fn => HandleInternalCrash signum
  | HandleCrash_fn =>
      match depth with
      | O => throw OutOfFuel
      | S d =>
          HandleCrash
            {| TestEmergency := emergency ep;
               SaveloadCrashWithMissingNewGRFs := missing_newgrfs ep;
               MakeCrashLog := MakeCrashLog_model (deliver (run_handler d ep)) (items ep) |}
            signum
      end
  end.


(** *** OS-fact producers *)

(** [fmt::format_to(output_iterator, text)] on a [std::string]. *)
Definition format_to (output : string) (text : string) : string := output +:+ text.

(** [struct utsname], the fields the code reads. *)
Record utsname := {
  sysname : string;
  release : string;
  version : string;
  machine : string
}.

(** One call of [uname(&name)]: its return value, what it left in [name],
    and [strerror(errno)] after it. *)
Record uname_call := {
  uname_ret : Z;
  uname_name : utsname;
  uname_strerror : string
}.

(** [void CrashLogUnix::LogOSVersion(output_iterator) const]. *)
Definition LogOSVersion (uname : uname_call) (output : string) : string :=
  let name := uname_name uname in
  if (uname_ret uname <? 0)%Z then
    format_to output ("Could not get OS version: " +:+ uname_strerror uname +:+ nl)
  else
    format_to output
      ("Operating system:" +:+ nl +:+
       " Name:     " +:+ sysname name +:+ nl +:+
       " Release:  " +:+ release name +:+ nl +:+
       " Version:  " +:+ version name +:+ nl +:+
       " Machine:  " +:+ machine name +:+ nl).

(** [{:02}] of a non-negative [int]: decimal, padded with zeros to width 2. *)
Definition fmt_02 (i : nat) : string :=
  let digits := NilZero.string_of_uint (Nat.to_uint i) in
  if String.length digits <? 2 then "0" +:+ digits else digits.

(** [" [{:02}] {}\n"]. *)
Definition frame_line (i : nat) (message : string) : string :=
  " [" +:+ fmt_02 i +:+ "] " +:+ message +:+ nl.

(** [lengthof(trace)] for [void *trace[64]]. *)
Definition lengthof_trace : nat := 64.

(** [backtrace(trace, size)] stores the innermost [size] active frames, or
    all of them when there are fewer; its return value is their number. *)
Definition backtrace {A} (callstack : list A) (size : nat) : list A := take size callstack.

(** How a call of a producer ends: it returns, with the buffer as it filled
    it, or it faults on the way, with the buffer as far as it got. *)
Inductive written :=
| Completed (output : string)
| Faulted (output : string).

(** [backtrace_symbols(trace, trace_size)]: the texts for the stored frames
    in an array that it allocates, or a null pointer when [available] is
    false (the allocation failed). A frame is identified with its text. *)
Definition backtrace_symbols (available : bool) (trace : list string)
    : option (list string) :=
  if available then Some trace else None.

(** [for (int i = 0; i < trace_size; i++) format_to(" [{:02}] {}\\n", i, messages[i]);]
    with [remaining = trace_size - i]. Reading [messages[i]] through a null
    [messages] is the fault. *)
Fixpoint LogStacktrace_loop (messages : option (list string)) (remaining i : nat)
    (output : string) : written :=
  match remaining with
  | O => Completed output
  | S remaining' =>
      match messages with
      | None => Faulted output
      | Some texts =>
          LogStacktrace_loop messages remaining' (S i)
            (format_to output (frame_line i (default EmptyString (texts !! i))))
      end
  end.

(** [void CrashLogUnix::LogStacktrace(output_iterator) const]. [glibc]
    says whether [__GLIBC__] is defined; [callstack] holds the active
    frames, innermost first; [symbols_available] says whether
    [backtrace_symbols] can allocate its result. *)
Definition LogStacktrace (glibc symbols_available : bool) (callstack : list string)
    (output : string) : written :=
  let output := format_to output ("Stacktrace:" +:+ nl) in
  let body :=
    if glibc then
      let trace := backtrace callstack lengthof_trace in
      let trace_size := length trace in
      let messages := backtrace_symbols symbols_available trace in
      LogStacktrace_loop messages trace_size 0 output
      (* free(messages) *)
    else
      Completed (format_to output (" Not supported." +:+ nl)) in
  match body with
  | Completed output => Completed (format_to output nl)
  | Faulted output => Faulted output
  end.

End CrashLogUnix.

(** ** Sample states and episodes, for the worked examples below *)

(** A process that has not touched any of this yet. *)
Definition idle : process :=
  {| heap := []; current := None; sigactions := ∅; sigmask := ∅;
     console := []; trace := [] |}.

(** The same process after [InitialiseCrashLog], on Linux. *)
Definition linux_armed : process := (@InitialiseCrashLog linux_signal_h idle).2.

(** A process in the middle of writing a crash log for SIGSEGV, on Linux:
    the secondary handler is installed, the six signals are unblocked, one
    report object exists and is current. [active] is its flag. *)
Definition linux_reporting (active : bool) : process :=
  {| heap := [{| signum := 11; try_execute_active := active |}];
     current := Some 0;
     sigactions := sigactions (@SetSignals linux_signal_h HandleInternalCrash_fn idle).2;
     sigmask := ∅;
     console := [];
     trace := [EvTestEmergency; EvSaveloadCrashWithMissingNewGRFs; EvMakeCrashLog 0] |}.

(** Collaborators whose report composition does nothing. *)
Definition quiet_collaborators (emergency missing : bool) : collaborators :=
  {| TestEmergency := emergency;
     SaveloadCrashWithMissingNewGRFs := missing;
     MakeCrashLog := λ _, ret tt |}.

(** An episode in which the second and the third of four steps fault. *)
Definition bumpy_episode : episode :=
  {| emergency := false;
     missing_newgrfs := false;
     items := [Guarded "os" (StepReturns true);
               Guarded "stacktrace" (StepFaults 11);
               Guarded "libraries" (StepFaults 7);
               Guarded "gamelog" (StepReturns false)] |}.

(** An episode that the first pre-check ends. *)
Definition skipping_episode : episode :=
  {| emergency := true; missing_newgrfs := false; items := [] |}.

(** An episode in which the composing code faults outside of any step. *)
Definition broken_episode : episode :=
  {| emergency := false;
     missing_newgrfs := false;
     items := [Guarded "os" (StepReturns true); FaultOutsideGuard 11] |}.


(** [HandleCrash(SIGSEGV)] entered on Linux right after [InitialiseCrashLog],
    for an episode. *)
Definition linux_first_fault (ep : episode) : outcome noreturn * process :=
  @run_handler linux_signal_h 1 ep HandleCrash_fn 11 linux_armed.

(** [uname] on some Linux machine. *)
Definition linux_utsname : utsname :=
  {| sysname := "Linux"; release := "6.1.0"; version := "#1 SMP"; machine := "x86_64" |}.

(** ** Vocabulary of the properties *)

(** The state in which [HandleCrash] consults the pre-checks: the secondary
    handler is installed and the six signals are unblocked. *)
Definition rearmed `{signal_h} (s : process) : process :=
  let s1 := (SetSignals HandleInternalCrash_fn s).2 in
  with_sigmask (sigmask s1 ∖ build_sigs) s1.

(** The state [TryExecute] leaves behind when it was resumed through the
    checkpoint in state [s2]. *)
Definition TryExecute_resumed `{signal_h} (this : nat) (section_name : string)
    (s2 : process) : process :=
  flag_set this false
    (with_sigmask (sigmask s2 ∖ build_sigs)
       (with_console (console s2 ++ [TryExecute_diagnostic section_name]) s2)).

(** The situation [HandleCrash] sets up before it calls [MakeCrashLog] on
    the object at address [this]: the object is current and alive, and each
    of the six signals is unblocked and served by [HandleInternalCrash]. *)
Definition reporting `{signal_h} (this : nat) (s : process) : Prop :=
  current s = Some this ∧
  is_Some (heap s !! this) ∧
  ∀ sig, sig ∈ _signals_to_handle →
    (sig ∉ sigmask s) ∧
    ∃ sa, sigactions s !! sig = Some sa ∧ sa_handler sa = HandleInternalCrash_fn.

(** Items that stay within what the guard is made for: steps that return,
    and steps that fault on one of the six signals with room left on the
    stack. *)
Definition within_guard `{signal_h} (item : composition_item) : Prop :=
  match item with
  | Guarded _ (StepReturns _) => True
  | Guarded _ (StepFaults sig) => sig ∈ _signals_to_handle
  | FaultOutsideGuard _ => False
  | GuardedStackExhaustion _ => False
  end.

(** The text of a list of lines. *)
Definition join (lines : list string) : string := foldr String.append EmptyString lines.

(** The two-digit rendering of a number below 100. *)
Definition two_digits (i : nat) : string :=
  String (ascii_of_nat (48 + i / 10)) (String (ascii_of_nat (48 + i mod 10)) EmptyString).

(** The three ways a handler ends the process. *)
Inductive termination :=
| ReportSkipped         (* a pre-check said that no report is to be made *)
| ReportWritten         (* the report was made, in full or in part *)
| CatastrophicFailure.  (* the capture machinery itself failed *)

(** The literal passed to [_exit] on each of them. *)
Definition exit_status (t : termination) : Z :=
  match t with
  | ReportSkipped => 3
  | ReportWritten => 2
  | CatastrophicFailure => 1
  end.

(** No call of [AfterCrashLogCleanup] among the events [t]. *)
Definition cleanup_free (t : list event) : Prop := EvAfterCrashLogCleanup ∉ t.

(** What distinguishes the three endings, in terms of the events [added] to
    the trace during the episode and of the final state: a written report
    ends right after the one and only cleanup; a skipped report ends after a
    pre-check, with no cleanup; a catastrophic failure ends right after the
    fatal notice of [HandleInternalCrash], with no cleanup. *)
Definition ended_as (k : termination) (added : list event) (s' : process) : Prop :=
  match k with
  | ReportWritten =>
      ∃ t0, added = t0 ++ [EvAfterCrashLogCleanup] ∧ cleanup_free t0
  | ReportSkipped =>
      cleanup_free added ∧
      ∃ t0, added = t0 ++ [EvTestEmergency] ∨
            added = t0 ++ [EvSaveloadCrashWithMissingNewGRFs]
  | CatastrophicFailure =>
      cleanup_free added ∧ ∃ c0, console s' = c0 ++ [HandleInternalCrash_notice]
  end.

(** What the outcome of a computation says about the events [t] it added:
    an exit has the status of one of the three endings and the events fit
    that ending; a computation that ends in any other way has not called
    the cleanup. *)
Definition exit_discipline {A} (o : outcome A) (t : list event) (s' : process) : Prop :=
  match o with
  | Abrupt (Exit status) => ∃ k, status = exit_status k ∧ ended_as k t s'
  | _ => cleanup_free t
  end.

(** A computation that only adds events to the trace and whose outcome
    always fits the events it added. *)
Definition disciplined {A} (m : M A) : Prop :=
  ∀ s o s', m s = (o, s') → ∃ t, trace s' = trace s ++ t ∧ exit_discipline o t s'.

(** A computation that returns normally and leaves the trace alone. *)
Definition quiet {A} (m : M A) : Prop :=
  ∀ s, ∃ a s', m s = (Normal a, s') ∧ trace s' = trace s.

(** The situation between two guarded steps of the report on the object at
    address [this]: the object is current and its flag is false, and each of
    the six signals is unblocked and has the disposition that
    [SetSignals(HandleInternalCrash)] gave it. *)
Definition guarding `{signal_h} (this : nat) (s : process) : Prop :=
  current s = Some this ∧
  (∃ o, heap s !! this = Some o ∧ try_execute_active o = false) ∧
  ∀ sig, sig ∈ _signals_to_handle →
    (sig ∉ sigmask s) ∧
    sigactions s !! sig =
      Some {| sa_handler := HandleInternalCrash_fn; sa_mask := build_sigs;
              sa_flags := SA_RESTART |}.

(** The lines [TryExecute] prints for a composition: one for each guarded
    step that faults, in the order of the steps. *)
Fixpoint diagnostics_of `{signal_h} (composition : list composition_item) : list string :=
  match composition with
  | [] => []
  | Guarded label (StepFaults _) :: rest => TryExecute_diagnostic label :: diagnostics_of rest
  | _ :: rest => diagnostics_of rest
  end.


(** The process is gone: it called [_exit] or the kernel ended it. *)
Definition process_over {A} (o : outcome A) : Prop :=
  match o with
  | Abrupt (Exit _) | Abrupt (Killed _) => True
  | _ => False
  end.

(** The object at address [this] is the current report and no guarded step
    is under way. *)
Definition between_steps (this : nat) (s : process) : Prop :=
  current s = Some this ∧ ∃ o, heap s !! this = Some o ∧ try_execute_active o = false.

(** * Properties *)

(** ** Signal registration *)

Section SignalRegistration.
Context `{sh : signal_h}.

Lemma elem_of_foldl_sigaddset (signums : list Z) (acc : sigset_t) (x : Z) :
  x ∈ foldl sigaddset acc signums ↔ x ∈ acc ∨ x ∈ signums.
Proof.
  revert acc. induction signums as [|y ys IH]; intros acc; simpl.
  - rewrite elem_of_nil. tauto.
  - rewrite IH. unfold sigaddset.
    rewrite elem_of_union, elem_of_singleton, elem_of_cons. tauto.
Qed.

Lemma elem_of_build_sigs (x : Z) : x ∈ build_sigs ↔ x ∈ _signals_to_handle.
Proof.
  unfold build_sigs. rewrite elem_of_foldl_sigaddset.
  unfold sigemptyset. rewrite elem_of_empty. tauto.
Qed.

Lemma build_sigs_list_to_set : build_sigs = list_to_set _signals_to_handle.
Proof.
  apply set_eq. intros x. rewrite elem_of_build_sigs, elem_of_list_to_set. done.
Qed.

(** The state after the registration loop: only the disposition table
    changes, entry by entry. *)
Lemma sigaction_each_run (signums : list Z) (sa : sigaction_t) (s : process) :
  sigaction_each signums sa s =
    (Normal tt,
     with_sigactions (foldl (λ t signum, <[signum := sa]> t) (sigactions s) signums) s).
Proof.
  revert s. induction signums as [|y ys IH]; intros s; simpl.
  - destruct s; reflexivity.
  - unfold bind, sigaction, modify at 1. simpl. rewrite IH. reflexivity.
Qed.

Lemma lookup_foldl_insert (signums : list Z) (sa : sigaction_t)
    (t : gmap Z sigaction_t) (x : Z) :
  foldl (λ t signum, <[signum := sa]> t) t signums !! x =
    if decide (x ∈ signums) then Some sa else t !! x.
Proof.
  revert t. induction signums as [|y ys IH]; intros t; simpl.
  - destruct (decide (x ∈ [])) as [Hin|_]; [|done].
    by apply not_elem_of_nil in Hin.
  - rewrite IH. destruct (decide (x = y)) as [->|Hne].
    + rewrite (decide_True (P := y ∈ y :: ys)) by left.
      destruct (decide (y ∈ ys)); [done|]. by rewrite lookup_insert_eq.
    + rewrite lookup_insert_ne by done.
      destruct (decide (x ∈ ys)) as [Hin|Hin].
      * rewrite (decide_True (P := x ∈ y :: ys)) by (by right). done.
      * rewrite (decide_False (P := x ∈ y :: ys)); [done|].
        intros [?|?]%elem_of_cons; done.
Qed.

Lemma SetSignals_run (handler : handler_fn) (s : process) :
  SetSignals handler s =
    (Normal build_sigs,
     with_sigactions
       (foldl (λ t signum,
                 <[signum := {| sa_handler := handler; sa_mask := build_sigs;
                                sa_flags := SA_RESTART |}]> t)
              (sigactions s) _signals_to_handle) s).
Proof.
  unfold SetSignals, bind. rewrite sigaction_each_run. reflexivity.
Qed.

End SignalRegistration.

(** C9. [SetSignals handler] returns normally; the set it returns contains
    exactly the six signals of [_signals_to_handle]; afterwards every one of
    the six has [handler] as its handler, with that same set as [sa_mask]
    and [SA_RESTART] as flags, so that a fault on one of the six enters
    [handler] with all six blocked; the dispositions of all other signals
    and the rest of the process state are as before. *)
Theorem SetSignals_registers_monitored_set `{signal_h}
    (handler : handler_fn) (s : process) :
  ∃ sigs s',
    SetSignals handler s = (Normal sigs, s') ∧
    sigs = {[SIGSEGV; SIGABRT; SIGFPE; SIGBUS; SIGILL; SIGQUIT]} ∧
    (∀ x, x ∈ sigs ↔ x ∈ _signals_to_handle) ∧
    Forall (λ signum,
              sigactions s' !! signum =
                Some {| sa_handler := handler; sa_mask := sigs; sa_flags := SA_RESTART |})
           _signals_to_handle ∧
    (∀ x, x ∉ _signals_to_handle → sigactions s' !! x = sigactions s !! x) ∧
    (∀ run sig, sig ∈ _signals_to_handle → sig ∉ sigmask s →
       ∃ s1, deliver run sig s' = run handler sig s1 ∧
             ∀ x, x ∈ _signals_to_handle → x ∈ sigmask s1) ∧
    heap s' = heap s ∧ current s' = current s ∧ sigmask s' = sigmask s ∧
    console s' = console s ∧ trace s' = trace s.
Proof.
  eexists _, _. split; [apply SetSignals_run|].
  split; [|split; [|split; [|split; [|split]]]].
  - apply set_eq. intros x. rewrite elem_of_build_sigs.
    unfold _signals_to_handle.
    rewrite !elem_of_cons, elem_of_nil, !elem_of_union, !elem_of_singleton. tauto.
  - apply elem_of_build_sigs.
  - apply Forall_forall. intros x Hx. cbn [with_sigactions sigactions].
    rewrite lookup_foldl_insert. by rewrite decide_True.
  - intros x Hx. cbn [with_sigactions sigactions].
    rewrite lookup_foldl_insert. by rewrite decide_False.
  - intros run sig Hsig Hblk. unfold deliver. cbn [with_sigactions sigactions sigmask].
    rewrite lookup_foldl_insert, decide_True by done.
    rewrite decide_False by done. cbn [sa_handler sa_mask].
    eexists. split; [reflexivity|].
    intros x Hx. cbn [with_sigmask sigmask].
    rewrite !elem_of_union, elem_of_build_sigs. tauto.
  - done.
Qed.

(** On Linux: SIGSEGV (11) ends up with the handler and the six-signal mask,
    and SIGTERM (15) is left alone. *)
Lemma SetSignals_registers_monitored_set_witness :
  ∃ sigs s',
    @SetSignals linux_signal_h HandleCrash_fn idle = (Normal sigs, s') ∧
    (11%Z ∈ sigs) ∧
    sigactions s' !! 15%Z = None.
Proof.
  destruct (@SetSignals_registers_monitored_set linux_signal_h HandleCrash_fn idle)
    as (sigs & s' & Hrun & Hsigs & Hmem & Hall & Hframe & _ & _).
  exists sigs, s'. split; [exact Hrun|]. split.
  - apply Hmem. vm_compute. apply list_elem_of_In. simpl. tauto.
  - rewrite Hframe; [reflexivity|].
    intros Hin. apply list_elem_of_In in Hin. vm_compute in Hin.
    repeat destruct Hin as [Hin|Hin]; try discriminate Hin; exact Hin.
Defined.

(** ** The handlers, path by path *)

Lemma HandleInternalCrash_null (signum : Z) (s : process) :
  current s = None →
  HandleInternalCrash signum s =
    (Abrupt (Exit 1), with_console (console s ++ [HandleInternalCrash_notice]) s).
Proof.
  intros Hcur. unfold HandleInternalCrash, bind, gets. rewrite Hcur. reflexivity.
Qed.

Lemma HandleInternalCrash_live (signum : Z) (s : process) (p : nat) (o : CrashLogUnix) :
  current s = Some p → heap s !! p = Some o →
  HandleInternalCrash signum s =
    if try_execute_active o then (Abrupt (LongJmp p 1), s)
    else (Abrupt (Exit 1), with_console (console s ++ [HandleInternalCrash_notice]) s).
Proof.
  intros Hcur Hobj.
  unfold HandleInternalCrash, bind, gets, load_try_execute_active.
  rewrite Hcur, Hobj. destruct (try_execute_active o); reflexivity.
Qed.

Lemma HandleCrash_current_set `{signal_h} (c : collaborators) (signum : Z) (s : process) (p : nat) :
  current s = Some p →
  HandleCrash c signum s =
    (Abrupt (Exit 2), with_trace (trace s ++ [EvAfterCrashLogCleanup]) s).
Proof.
  intros Hcur. unfold HandleCrash, bind, gets. rewrite Hcur. reflexivity.
Qed.

Lemma rearmed_frame `{signal_h} (s : process) :
  heap (rearmed s) = heap s ∧ current (rearmed s) = current s ∧
  console (rearmed s) = console s ∧ trace (rearmed s) = trace s.
Proof. unfold rearmed. rewrite SetSignals_run. done. Qed.

Lemma HandleCrash_current_null `{signal_h} (c : collaborators) (signum : Z) (s : process) :
  current s = None →
  HandleCrash c signum s =
    if TestEmergency c then
      (Abrupt (Exit 3),
       with_console (console s ++ [shutdown_notice; emergency_notice])
         (with_trace (trace s ++ [EvTestEmergency]) (rearmed s)))
    else if SaveloadCrashWithMissingNewGRFs c then
      (Abrupt (Exit 3),
       with_console (console s ++ [shutdown_notice; newgrf_notice_1; newgrf_notice_2])
         (with_trace (trace s ++ [EvTestEmergency; EvSaveloadCrashWithMissingNewGRFs])
            (rearmed s)))
    else
      (call_MakeCrashLog c (length (heap s)) ;; AfterCrashLogCleanup ;; _exit 2)
        (with_current (Some (length (heap s)))
           (with_heap (heap s ++ [{| signum := signum; try_execute_active := false |}])
              (with_trace (trace s ++ [EvTestEmergency; EvSaveloadCrashWithMissingNewGRFs])
                 (rearmed s)))).
Proof.
  intros Hcur.
  unfold HandleCrash, rearmed, call_TestEmergency, call_SaveloadCrashWithMissingNewGRFs,
    call_MakeCrashLog, AfterCrashLogCleanup, sigprocmask_unblock, new_CrashLogUnix,
    fmt_print, log_event, _exit, throw, modify, gets, ret, bind.
  rewrite Hcur, SetSignals_run. cbn [fst snd].
  destruct (TestEmergency c), (SaveloadCrashWithMissingNewGRFs c);
    unfold with_console, with_trace, with_heap, with_current, with_sigmask, with_sigactions;
    cbn [heap current sigactions sigmask console trace];
    rewrite <- ?app_assoc; reflexivity.
Qed.

(** C1. [HandleInternalCrash]: when [current] points to a report object
    whose [try_execute_active] flag is true, control goes to that object's
    checkpoint ([longjmp] with value 1), the process state is untouched and
    the process is not terminated; when [current] is null, or the flag of
    the object it points to is false, the fatal notice is printed and the
    process ends with status 1, and no [longjmp] is made. *)
Theorem HandleInternalCrash_resumes_or_aborts (signum : Z) (s : process) :
  (∀ p o, current s = Some p → heap s !! p = Some o → try_execute_active o = true →
     HandleInternalCrash signum s = (Abrupt (LongJmp p 1), s)) ∧
  (current s = None ∨
   (∃ p o, current s = Some p ∧ heap s !! p = Some o ∧ try_execute_active o = false) →
     HandleInternalCrash signum s =
       (Abrupt (Exit 1), with_console (console s ++ [HandleInternalCrash_notice]) s)).
Proof.
  split.
  - intros p o Hcur Hobj Hact.
    rewrite (HandleInternalCrash_live signum s p o Hcur Hobj), Hact. reflexivity.
  - intros [Hnull | (p & o & Hcur & Hobj & Hact)].
    + by apply HandleInternalCrash_null.
    + rewrite (HandleInternalCrash_live signum s p o Hcur Hobj), Hact. reflexivity.
Qed.

Lemma HandleInternalCrash_resumes_or_aborts_witness :
  HandleInternalCrash 11 (linux_reporting true) =
    (Abrupt (LongJmp 0 1), linux_reporting true) ∧
  HandleInternalCrash 11 (linux_reporting false) =
    (Abrupt (Exit 1),
     with_console (console (linux_reporting false) ++ [HandleInternalCrash_notice])
       (linux_reporting false)) ∧
  HandleInternalCrash 11 idle =
    (Abrupt (Exit 1), with_console (console idle ++ [HandleInternalCrash_notice]) idle).
Proof.
  split; [|split].
  - apply (proj1 (HandleInternalCrash_resumes_or_aborts 11 (linux_reporting true))
             0 {| signum := 11; try_execute_active := true |}); reflexivity.
  - apply (proj2 (HandleInternalCrash_resumes_or_aborts 11 (linux_reporting false))).
    right. exists 0, {| signum := 11; try_execute_active := false |}.
    repeat split; reflexivity.
  - apply (proj2 (HandleInternalCrash_resumes_or_aborts 11 idle)).
    left. reflexivity.
Defined.

(** C6. [HandleCrash] entered while [current] is already set: the only
    thing it does is one call of [AfterCrashLogCleanup], then the process
    ends with status 2, the status of the path on which the report was
    written. The pre-checks are not consulted and [MakeCrashLog] is not
    called (the trace gains the cleanup and nothing else), no handler is
    registered (the dispositions and the signal mask are as before), and no
    report object is allocated. *)
Theorem HandleCrash_reentry_cleans_up_once `{signal_h}
    (c : collaborators) (signum : Z) (s : process) (p : nat) :
  current s = Some p →
  ∃ s',
    HandleCrash c signum s = (Abrupt (Exit 2), s') ∧
    trace s' = trace s ++ [EvAfterCrashLogCleanup] ∧
    sigactions s' = sigactions s ∧ sigmask s' = sigmask s ∧
    heap s' = heap s ∧ current s' = current s ∧ console s' = console s.
Proof.
  intros Hcur. eexists. split; [by apply (HandleCrash_current_set c signum s p)|].
  repeat split.
Qed.

Lemma HandleCrash_reentry_cleans_up_once_witness :
  ∃ s',
    @HandleCrash linux_signal_h (quiet_collaborators true true) 11 (linux_reporting false) =
      (Abrupt (Exit 2), s') ∧
    trace s' = trace (linux_reporting false) ++ [EvAfterCrashLogCleanup].
Proof.
  destruct (@HandleCrash_reentry_cleans_up_once linux_signal_h
              (quiet_collaborators true true) 11 (linux_reporting false) 0 eq_refl)
    as (s' & Hrun & Htrace & _).
  exists s'. split; [exact Hrun | exact Htrace].
Defined.

(** C5. [HandleCrash] entered with [current] null asks
    [_gamelog.TestEmergency()] first. If the answer is yes, the two-line
    notice is printed and the process ends with status 3; the second
    pre-check is not consulted. If it is no, [SaveloadCrashWithMissingNewGRFs()]
    is asked next; if that answer is yes, the three-line notice is printed
    and the process ends with status 3. On both paths no report object is
    allocated, [current] stays null and [MakeCrashLog] is not called: the
    final state does not depend on it. When both answers are no, both were
    asked, in this order, before the report object is made. *)
Theorem HandleCrash_prechecks_skip_report `{signal_h}
    (c : collaborators) (signum : Z) (s : process) :
  current s = None →
  (TestEmergency c = true →
     ∃ s', HandleCrash c signum s = (Abrupt (Exit 3), s') ∧
       trace s' = trace s ++ [EvTestEmergency] ∧
       console s' = console s ++ [shutdown_notice; emergency_notice] ∧
       heap s' = heap s ∧ current s' = None) ∧
  (TestEmergency c = false → SaveloadCrashWithMissingNewGRFs c = true →
     ∃ s', HandleCrash c signum s = (Abrupt (Exit 3), s') ∧
       trace s' = trace s ++ [EvTestEmergency; EvSaveloadCrashWithMissingNewGRFs] ∧
       console s' = console s ++ [shutdown_notice; newgrf_notice_1; newgrf_notice_2] ∧
       heap s' = heap s ∧ current s' = None) ∧
  (TestEmergency c = false → SaveloadCrashWithMissingNewGRFs c = false →
     ∃ s1, HandleCrash c signum s =
             (call_MakeCrashLog c (length (heap s)) ;; AfterCrashLogCleanup ;; _exit 2) s1 ∧
       trace s1 = trace s ++ [EvTestEmergency; EvSaveloadCrashWithMissingNewGRFs] ∧
       console s1 = console s ∧
       heap s1 = heap s ++ [{| signum := signum; try_execute_active := false |}] ∧
       current s1 = Some (length (heap s))).
Proof.
  intros Hcur. pose proof (HandleCrash_current_null c signum s Hcur) as Hrun.
  destruct (rearmed_frame s) as (Hheap & Hcur' & Hcon & Htr).
  split; [|split].
  - intros He. rewrite He in Hrun. eexists. split; [exact Hrun|].
    cbn [with_console with_trace heap current console trace].
    by rewrite ?Hheap, ?Hcur', ?Hcon, ?Htr.
  - intros He Hm. rewrite He, Hm in Hrun. eexists. split; [exact Hrun|].
    cbn [with_console with_trace heap current console trace].
    by rewrite ?Hheap, ?Hcur', ?Hcon, ?Htr.
  - intros He Hm. rewrite He, Hm in Hrun. eexists. split; [exact Hrun|].
    cbn [with_console with_trace with_heap with_current heap current console trace].
    by rewrite ?Hheap, ?Hcon, ?Htr.
Qed.

Lemma HandleCrash_prechecks_skip_report_witness :
  (∃ s', @HandleCrash linux_signal_h (quiet_collaborators true true) 11 linux_armed =
           (Abrupt (Exit 3), s') ∧
     trace s' = [EvTestEmergency] ∧ heap s' = [] ∧ current s' = None) ∧
  (∃ s', @HandleCrash linux_signal_h (quiet_collaborators false true) 11 linux_armed =
           (Abrupt (Exit 3), s') ∧
     trace s' = [EvTestEmergency; EvSaveloadCrashWithMissingNewGRFs] ∧
     heap s' = [] ∧ current s' = None).
Proof.
  split.
  - destruct (proj1 (@HandleCrash_prechecks_skip_report linux_signal_h
                       (quiet_collaborators true true) 11 linux_armed eq_refl) eq_refl)
      as (s' & Hrun & Htrace & _ & Hheap & Hcur).
    exists s'. repeat split; assumption.
  - destruct (proj1 (proj2 (@HandleCrash_prechecks_skip_report linux_signal_h
                       (quiet_collaborators false true) 11 linux_armed eq_refl))
                eq_refl eq_refl)
      as (s' & Hrun & Htrace & _ & Hheap & Hcur).
    exists s'. repeat split; assumption.
Defined.

(** ** Guarded execution *)

Lemma setjmp_resumed_nonzero (val : Z) : (setjmp_resumed val =? 0)%Z = false.
Proof.
  unfold setjmp_resumed. destruct (val =? 0)%Z eqn:E; [reflexivity | exact E].
Qed.

Lemma store_try_execute_active_live (p : nat) (b : bool) (s : process) :
  is_Some (heap s !! p) →
  store_try_execute_active p b s = (Normal tt, flag_set p b s).
Proof. intros [o Ho]. unfold store_try_execute_active. by rewrite Ho. Qed.

Lemma flag_set_lookup (p : nat) (b : bool) (s : process) :
  heap (flag_set p b s) !! p = assign_try_execute_active b <$> heap s !! p.
Proof.
  unfold flag_set. cbn [heap with_heap].
  rewrite list_lookup_alter. by rewrite decide_True.
Qed.

Lemma flag_set_live (p q : nat) (b : bool) (s : process) :
  is_Some (heap (flag_set p b s) !! q) ↔ is_Some (heap s !! q).
Proof.
  unfold flag_set. cbn [heap with_heap].
  rewrite !lookup_lt_is_Some, length_alter. done.
Qed.

(** [TryExecute], case by case on what [func] does. *)
Lemma TryExecute_run `{signal_h} (this : nat) (section_name : string) (func : M bool)
    (s : process) :
  TryExecute this section_name func s =
    match heap s !! this with
    | None => (Abrupt Undefined, s)
    | Some _ =>
        match func (flag_set this true s) with
        | (Normal res, s2) =>
            match heap s2 !! this with
            | Some _ => (Normal res, flag_set this false s2)
            | None => (Abrupt Undefined, s2)
            end
        | (Abrupt (LongJmp env val), s2) =>
            if decide (env = this) then
              match heap s2 !! this with
              | Some _ => (Normal false, TryExecute_resumed this section_name s2)
              | None =>
                  (Abrupt Undefined,
                   with_sigmask (sigmask s2 ∖ build_sigs)
                     (with_console (console s2 ++ [TryExecute_diagnostic section_name]) s2))
              end
            else (Abrupt (LongJmp env val), s2)
        | (Abrupt e, s2) => (Abrupt e, s2)
        end
    end.
Proof.
  unfold TryExecute, bind at 1, store_try_execute_active at 1.
  destruct (heap s !! this) as [o|]; [|reflexivity].
  unfold setjmp. cbn [Z.eqb negb].
  unfold bind at 1.
  destruct (func (flag_set this true s)) as [[res|e] s2].
  - unfold bind, store_try_execute_active, ret.
    destruct (heap s2 !! this); reflexivity.
  - destruct e as [status|env val|sig| |]; try reflexivity.
    destruct (decide (env = this)) as [->|]; [|reflexivity].
    rewrite setjmp_resumed_nonzero. cbn [negb].
    unfold TryExecute_resumed, bind, fmt_print, sigprocmask_unblock,
      store_try_execute_active, modify, ret.
    cbn [heap with_sigmask with_console].
    destruct (heap s2 !! this); reflexivity.
Qed.

Lemma run_handler_internal `{signal_h} (depth : nat) (ep : episode) (signum : Z) :
  run_handler depth ep HandleInternalCrash_fn signum = HandleInternalCrash signum.
Proof. destruct depth; reflexivity. Qed.

(** A fault raised inside a guarded step of the current report, for a signal
    that the secondary handler serves and that is not blocked, comes back
    as a jump to the checkpoint of that report. *)
Lemma guarded_fault_jumps `{signal_h} (depth : nat) (ep : episode) (sig : Z)
    (this : nat) (s : process) (sa : sigaction_t) :
  current s = Some this → is_Some (heap s !! this) →
  sigactions s !! sig = Some sa → sa_handler sa = HandleInternalCrash_fn →
  sig ∉ sigmask s →
  run_step (deliver (run_handler depth ep)) (StepFaults sig) (flag_set this true s) =
    (Abrupt (LongJmp this 1),
     with_sigmask (sigmask s ∪ sa_mask sa ∪ {[sig]}) (flag_set this true s)).
Proof.
  intros Hcur [o Ho] Hsa Hh Hblk.
  unfold run_step, diverge, bind, deliver.
  cbn [flag_set with_heap sigactions sigmask]. rewrite Hsa, Hh.
  rewrite decide_False by done. rewrite run_handler_internal.
  match goal with |- context [HandleInternalCrash sig ?s1] => set (s1' := s1) end.
  assert (Hobj : heap s1' !! this = Some (assign_try_execute_active true o)).
  { subst s1'. unfold flag_set, with_sigmask, with_heap. cbn [heap].
    rewrite list_lookup_alter, decide_True by done. by rewrite Ho. }
  rewrite (HandleInternalCrash_live sig s1' this _ Hcur Hobj). reflexivity.
Qed.

(** C2. [TryExecute] on a live report object [this]. Normal entry: when
    [func], started with the flag set, returns [res], [TryExecute] clears the
    flag and returns [res] (true for success, false for failure). Resume
    through the checkpoint: when [func] ends in a [longjmp] to the
    checkpoint of [this], [TryExecute] prints the diagnostic that names the
    section, takes exactly the six monitored signals out of the blocked set,
    clears the flag and returns false. A jump aimed at the checkpoint never
    gets past [TryExecute]. And during a crash report (the object is
    [current], a faulting signal is served by the secondary handler and not
    blocked) a step that returns or faults always makes [TryExecute] return a
    boolean: the step's own result, or false after a fault. *)
Theorem TryExecute_branch_contracts `{signal_h}
    (this : nat) (section_name : string) (s : process) :
  is_Some (heap s !! this) →
  (∀ func res s2,
     func (flag_set this true s) = (Normal res, s2) → is_Some (heap s2 !! this) →
     TryExecute this section_name func s = (Normal res, flag_set this false s2) ∧
     try_execute_active <$> heap (flag_set this false s2) !! this = Some false) ∧
  (∀ func val s2,
     func (flag_set this true s) = (Abrupt (LongJmp this val), s2) →
     is_Some (heap s2 !! this) →
     ∃ s3,
       TryExecute this section_name func s = (Normal false, s3) ∧
       console s3 =
         console s2 ++ ["Something went wrong when attempting to fill " +:+ section_name
                          +:+ " section of the crash log." +:+ nl] ∧
       (∀ x, x ∈ sigmask s3 ↔ x ∈ sigmask s2 ∧ x ∉ _signals_to_handle) ∧
       try_execute_active <$> heap s3 !! this = Some false ∧
       current s3 = current s2 ∧ sigactions s3 = sigactions s2 ∧ trace s3 = trace s2) ∧
  (∀ func val s', TryExecute this section_name func s ≠ (Abrupt (LongJmp this val), s')) ∧
  (∀ depth ep step,
     current s = Some this →
     (∀ sig, step = StepFaults sig →
        (sig ∉ sigmask s) ∧
        ∃ sa, sigactions s !! sig = Some sa ∧ sa_handler sa = HandleInternalCrash_fn) →
     ∃ s',
       TryExecute this section_name (run_step (deliver (run_handler depth ep)) step) s =
         (Normal (match step with StepReturns res => res | StepFaults _ => false end), s') ∧
       try_execute_active <$> heap s' !! this = Some false).
Proof.
  intros Hlive.
  assert (Hclear : ∀ s2, is_Some (heap s2 !! this) →
            try_execute_active <$> heap (flag_set this false s2) !! this = Some false).
  { intros s2 [o2 Ho2]. rewrite flag_set_lookup, Ho2. reflexivity. }
  split; [|split; [|split]].
  - intros func res s2 Hfunc Hlive2. split; [|by apply Hclear].
    rewrite TryExecute_run. destruct Hlive as [o ->]. rewrite Hfunc.
    destruct Hlive2 as [o2 ->]. reflexivity.
  - intros func val s2 Hfunc Hlive2.
    exists (TryExecute_resumed this section_name s2). split; [|split; [|split; [|split]]].
    + rewrite TryExecute_run. destruct Hlive as [o ->]. rewrite Hfunc.
      rewrite decide_True by done. destruct Hlive2 as [o2 ->]. reflexivity.
    + reflexivity.
    + intros x. unfold TryExecute_resumed. cbn [flag_set with_heap with_sigmask sigmask].
      rewrite elem_of_difference, elem_of_build_sigs. done.
    + unfold TryExecute_resumed. apply Hclear. exact Hlive2.
    + done.
  - intros func val s' Hrun. rewrite TryExecute_run in Hrun.
    destruct Hlive as [o Ho]. rewrite Ho in Hrun.
    destruct (func (flag_set this true s)) as [[res|e] s2].
    + destruct (heap s2 !! this); discriminate Hrun.
    + destruct e as [status|env v|sig| |]; try discriminate Hrun.
      destruct (decide (env = this)) as [->|Hne].
      * destruct (heap s2 !! this); discriminate Hrun.
      * injection Hrun as -> _ _. done.
  - intros depth ep step Hcur Hserved.
    rewrite TryExecute_run. destruct Hlive as [o Ho]. rewrite Ho.
    destruct step as [res|sig].
    + cbn [run_step]. unfold ret.
      assert (Hl : is_Some (heap (flag_set this true s) !! this))
        by (apply flag_set_live; eauto).
      destruct Hl as [o1 Ho1]. rewrite Ho1.
      eexists. split; [reflexivity|]. apply Hclear. eauto.
    + destruct (Hserved sig eq_refl) as (Hblk & sa & Hsa & Hh).
      rewrite (guarded_fault_jumps depth ep sig this s sa) by eauto.
      rewrite decide_True by done. cbn [with_sigmask heap].
      assert (Hl : is_Some (heap (flag_set this true s) !! this))
        by (apply flag_set_live; eauto).
      destruct Hl as [o1 Ho1]. rewrite Ho1.
      eexists. split; [reflexivity|].
      unfold TryExecute_resumed. apply Hclear. cbn [with_sigmask with_console heap]. eauto.
Qed.

Lemma TryExecute_branch_contracts_witness :
  @TryExecute linux_signal_h 0 "stacktrace" (ret true) (linux_reporting false) =
    (Normal true, flag_set 0 false (flag_set 0 true (linux_reporting false))) ∧
  (∃ s3,
     @TryExecute linux_signal_h 0 "stacktrace" (longjmp 0 1) (linux_reporting false) =
       (Normal false, s3) ∧
     try_execute_active <$> heap s3 !! 0 = Some false) ∧
  (∃ s',
     @TryExecute linux_signal_h 0 "stacktrace"
        (run_step (deliver (@run_handler linux_signal_h 0 bumpy_episode)) (StepFaults 11))
        (linux_reporting false) = (Normal false, s') ∧
     try_execute_active <$> heap s' !! 0 = Some false).
Proof.
  assert (Hlive : is_Some (heap (linux_reporting false) !! 0)) by (eexists; reflexivity).
  pose proof (@TryExecute_branch_contracts linux_signal_h 0 "stacktrace"
                (linux_reporting false) Hlive) as (Hnormal & Hresume & _ & Hepisode).
  split; [|split].
  - apply (Hnormal (ret true) true (flag_set 0 true (linux_reporting false))).
    + reflexivity.
    + eexists; reflexivity.
  - destruct (Hresume (longjmp 0 1) 1%Z (flag_set 0 true (linux_reporting false)))
      as (s3 & Hrun & _ & _ & Hflag & _).
    + reflexivity.
    + eexists; reflexivity.
    + exists s3. split; [exact Hrun | exact Hflag].
  - destruct (Hepisode 0 bumpy_episode (StepFaults 11)) as (s' & Hrun & Hflag).
    + reflexivity.
    + intros sig [= <-]. split.
      * apply not_elem_of_empty.
      * eexists. split; [vm_compute; reflexivity | reflexivity].
    + exists s'. split; [exact Hrun | exact Hflag].
Defined.

(** C10. [TryExecute] on a live report object sets the flag before the
    step starts and clears it itself on each of its two ways out; it changes
    the flag nowhere else. The step is started in a state in which the flag
    is true. When the step returns, the one thing [TryExecute] changes in
    the state the step left is the flag, which it clears, and it returns the
    step's result. When the step ends in a jump to the checkpoint,
    [TryExecute] prints and unblocks with the flag still as the step left
    it, then clears it and returns false. When the step ends the process, or
    jumps elsewhere, [TryExecute] does nothing after it. So after every
    return the flag is false, and a guarded step that follows starts from a
    false flag. *)
Theorem TryExecute_flag_true_exactly_during_step `{signal_h}
    (this : nat) (label : string) (s : process) :
  is_Some (heap s !! this) →
  try_execute_active <$> heap (flag_set this true s) !! this = Some true ∧
  (∀ func res s2,
     func (flag_set this true s) = (Normal res, s2) → is_Some (heap s2 !! this) →
     TryExecute this label func s = (Normal res, flag_set this false s2) ∧
     try_execute_active <$> heap (flag_set this false s2) !! this = Some false) ∧
  (∀ func val s2,
     func (flag_set this true s) = (Abrupt (LongJmp this val), s2) →
     is_Some (heap s2 !! this) →
     ∃ s3,
       s3 = with_sigmask (sigmask s2 ∖ build_sigs)
              (with_console (console s2 ++ [TryExecute_diagnostic label]) s2) ∧
       heap s3 = heap s2 ∧
       TryExecute this label func s = (Normal false, flag_set this false s3) ∧
       try_execute_active <$> heap (flag_set this false s3) !! this = Some false) ∧
  (∀ func e s2,
     func (flag_set this true s) = (Abrupt e, s2) → (∀ val, e ≠ LongJmp this val) →
     TryExecute this label func s = (Abrupt e, s2)) ∧
  (∀ func res s2 next_label next,
     func (flag_set this true s) = (Normal res, s2) → is_Some (heap s2 !! this) →
     (TryExecute this label func ;; TryExecute this next_label next) s =
       TryExecute this next_label next (flag_set this false s2)).
Proof.
  intros [o Ho].
  assert (Hclear : ∀ s2, is_Some (heap s2 !! this) →
            try_execute_active <$> heap (flag_set this false s2) !! this = Some false).
  { intros s2 [o2 Ho2]. rewrite flag_set_lookup, Ho2. reflexivity. }
  assert (Hnormal : ∀ func res s2,
            func (flag_set this true s) = (Normal res, s2) → is_Some (heap s2 !! this) →
            TryExecute this label func s = (Normal res, flag_set this false s2)).
  { intros func res s2 Hfunc [o2 Ho2]. by rewrite TryExecute_run, Ho, Hfunc, Ho2. }
  split; [|split; [|split; [|split]]].
  - by rewrite flag_set_lookup, Ho.
  - intros func res s2 Hfunc Hlive2. split; [by apply Hnormal | by apply Hclear].
  - intros func val s2 Hfunc Hlive2. eexists. split; [reflexivity|]. split; [reflexivity|].
    split; [|by apply Hclear].
    rewrite TryExecute_run, Ho, Hfunc, decide_True by done.
    destruct Hlive2 as [o2 ->]. reflexivity.
  - intros func e s2 Hfunc Hother. rewrite TryExecute_run, Ho, Hfunc.
    destruct e as [status|env val|sig| |]; try reflexivity.
    destruct (decide (env = this)) as [->|]; [|reflexivity].
    by destruct (Hother val).
  - intros func res s2 next_label next Hfunc Hlive2. unfold bind.
    by rewrite (Hnormal func res s2 Hfunc Hlive2).
Qed.

Lemma TryExecute_flag_true_exactly_during_step_witness :
  @TryExecute linux_signal_h 0 "os" (load_try_execute_active 0) (linux_reporting false) =
    (Normal true, flag_set 0 false (flag_set 0 true (linux_reporting false))) ∧
  try_execute_active <$>
    heap (flag_set 0 false (flag_set 0 true (linux_reporting false))) !! 0 = Some false ∧
  @TryExecute linux_signal_h 0 "os" (_exit 1) (linux_reporting false) =
    (Abrupt (Exit 1), flag_set 0 true (linux_reporting false)).
Proof.
  assert (Hlive : is_Some (heap (linux_reporting false) !! 0)) by (eexists; reflexivity).
  pose proof (@TryExecute_flag_true_exactly_during_step linux_signal_h 0 "os"
                (linux_reporting false) Hlive) as (_ & Hnormal & _ & Hother & _).
  split; [|split].
  - apply (Hnormal (load_try_execute_active 0) true).
    + reflexivity.
    + eexists; reflexivity.
  - apply (Hnormal (load_try_execute_active 0) true).
    + reflexivity.
    + eexists; reflexivity.
  - apply (Hother (_exit 1) (Exit 1)).
    + reflexivity.
    + discriminate.
Defined.

(** ** A report that runs to its end *)

Section Completion.
Context `{sh : signal_h}.

Lemma reporting_flag_set (this : nat) (b : bool) (s : process) :
  reporting this s → reporting this (flag_set this b s).
Proof.
  intros (Hcur & Hlive & Hsigs). split; [exact Hcur|]. split; [|exact Hsigs].
  by apply flag_set_live.
Qed.

Lemma reporting_resumed (this : nat) (section_name : string) (blocked : sigset_t)
    (s : process) :
  reporting this s →
  reporting this (TryExecute_resumed this section_name (with_sigmask blocked s)).
Proof.
  intros (Hcur & Hlive & Hsigs). unfold TryExecute_resumed.
  apply reporting_flag_set. split; [exact Hcur|]. split; [exact Hlive|].
  intros sig Hsig. destruct (Hsigs sig Hsig) as (_ & Hsa). split; [|exact Hsa].
  cbn [with_sigmask with_console sigmask].
  rewrite elem_of_difference, elem_of_build_sigs. tauto.
Qed.

Lemma TryExecute_completes (depth : nat) (ep : episode) (this : nat)
    (label : string) (step : step_behaviour) (s : process) :
  reporting this s → within_guard (Guarded label step) →
  ∃ res s',
    TryExecute this label (run_step (deliver (run_handler depth ep)) step) s =
      (Normal res, s') ∧ reporting this s'.
Proof.
  intros Hrep Hitem. pose proof Hrep as (Hcur & Hlive & Hsigs).
  rewrite TryExecute_run. destruct Hlive as [o Ho]. rewrite Ho.
  assert (Hl : is_Some (heap (flag_set this true s) !! this))
    by (apply flag_set_live; eauto).
  destruct Hl as [o1 Ho1].
  destruct step as [res|sig].
  - cbn [run_step]. unfold ret. rewrite Ho1. eexists _, _. split; [reflexivity|].
    by do 2 apply reporting_flag_set.
  - destruct (Hsigs sig Hitem) as (Hblk & sa & Hsa & Hh).
    rewrite (guarded_fault_jumps depth ep sig this s sa) by eauto.
    rewrite decide_True by done. cbn [with_sigmask heap]. rewrite Ho1.
    eexists _, _. split; [reflexivity|].
    by apply reporting_resumed, reporting_flag_set.
Qed.

Lemma MakeCrashLog_model_completes (depth : nat) (ep : episode) (this : nat)
    (composition : list composition_item) (s : process) :
  reporting this s → Forall within_guard composition →
  ∃ s',
    MakeCrashLog_model (deliver (run_handler depth ep)) composition this s =
      (Normal tt, s') ∧ reporting this s'.
Proof.
  intros Hrep Hall. revert s Hrep.
  induction Hall as [|item rest Hitem _ IH]; intros s Hrep.
  - by exists s.
  - destruct item as [label step|sig|label]; [|destruct Hitem|destruct Hitem].
    destruct (TryExecute_completes depth ep this label step s Hrep Hitem)
      as (res & s1 & Hrun & Hrep1).
    destruct (IH s1 Hrep1) as (s' & Hrest & Hrep').
    exists s'. split; [|exact Hrep'].
    cbn [MakeCrashLog_model]. unfold bind. by rewrite Hrun.
Qed.

Lemma reporting_after_new (signum : Z) (added : list event) (s : process) :
  reporting (length (heap s))
    (with_current (Some (length (heap s)))
       (with_heap (heap s ++ [{| signum := signum; try_execute_active := false |}])
          (with_trace (trace s ++ added) (rearmed s)))).
Proof.
  destruct (rearmed_frame s) as (Hheap & _).
  split; [reflexivity|]. split.
  - cbn [with_current with_heap heap]. apply lookup_lt_is_Some.
    rewrite length_app. cbn. lia.
  - intros sig Hsig. cbn [with_current with_heap with_trace sigmask sigactions].
    unfold rearmed. rewrite SetSignals_run. cbn [snd with_sigmask with_sigactions
      sigmask sigactions]. split.
    + rewrite elem_of_difference, elem_of_build_sigs. tauto.
    + eexists. split.
      * rewrite lookup_foldl_insert, decide_True by done. reflexivity.
      * reflexivity.
Qed.

(** A first fault, with both pre-checks answering no and a composition that
    stays within the guard, always ends with status 2, whatever steps fault
    on the way. *)
Theorem first_fault_writes_report (depth : nat) (ep : episode) (signum : Z) (s : process) :
  current s = None →
  emergency ep = false → missing_newgrfs ep = false →
  Forall within_guard (items ep) →
  ∃ s', run_handler (S depth) ep HandleCrash_fn signum s = (Abrupt (Exit 2), s').
Proof.
  intros Hcur He Hm Hall. cbn [run_handler].
  rewrite HandleCrash_current_null by exact Hcur.
  cbn [TestEmergency SaveloadCrashWithMissingNewGRFs]. rewrite He, Hm.
  unfold call_MakeCrashLog, bind at 1, bind at 1, log_event, modify.
  cbn [MakeCrashLog].
  match goal with |- context [MakeCrashLog_model _ _ ?this ?s1] =>
    destruct (MakeCrashLog_model_completes depth ep this (items ep) s1)
      as (s2 & Hrun & _)
  end.
  - unfold with_trace at 1. cbn [heap current sigactions sigmask console trace
      with_current with_heap].
    pose proof (reporting_after_new signum
                  [EvTestEmergency; EvSaveloadCrashWithMissingNewGRFs;
                   EvMakeCrashLog (length (heap s))] s) as Hrep.
    destruct Hrep as (H1 & H2 & H3). split; [exact H1|]. split; [exact H2|exact H3].
  - exact Hall.
  - rewrite Hrun. eexists. reflexivity.
Qed.

End Completion.

(** ** OS-fact producers *)

Lemma string_app_assoc (a b c : string) : (a +:+ b) +:+ c = a +:+ (b +:+ c).
Proof.
  induction a as [|x a IH]; [reflexivity|].
  change (String x ((a +:+ b) +:+ c) = String x (a +:+ (b +:+ c))).
  by rewrite IH.
Qed.

Lemma string_app_empty_r (a : string) : a +:+ EmptyString = a.
Proof.
  induction a as [|x a IH]; [reflexivity|].
  change (String x (a +:+ EmptyString) = String x a).
  by rewrite IH.
Qed.

Lemma fmt_02_two_digits (i : nat) : i < 64 → fmt_02 i = two_digits i.
Proof.
  intros Hi.
  assert (Hall : forallb (λ j, String.eqb (fmt_02 j) (two_digits j)) (seq 0 64) = true)
    by (vm_compute; reflexivity).
  rewrite forallb_forall in Hall.
  apply String.eqb_eq, Hall, in_seq. lia.
Qed.

Lemma LogStacktrace_loop_run (texts : list string) (remaining i : nat) (output : string) :
  LogStacktrace_loop (Some texts) remaining i output =
    Completed
      (output +:+ join (map (λ j, frame_line j (default EmptyString (texts !! j)))
                            (seq i remaining))).
Proof.
  revert i output. induction remaining as [|n IH]; intros i output.
  - simpl. by rewrite string_app_empty_r.
  - cbn [LogStacktrace_loop]. rewrite IH. unfold format_to.
    rewrite string_app_assoc. reflexivity.
Qed.

(** When [backtrace_symbols] succeeds, or without glibc: with glibc,
    [LogStacktrace] appends the header line [Stacktrace:], then one line per
    captured frame, then an empty line. There are as many frame lines as
    active frames, but never more than 64; line number [i], counted from 0,
    is the text for frame [i] behind its index, printed with two digits.
    Without glibc it appends the header, the single line [ Not supported.]
    and an empty line. *)
Theorem LogStacktrace_frames (symbols_available : bool) (callstack : list string)
    (output : string) :
  (∃ lines,
     LogStacktrace true true callstack output =
       Completed (output +:+ ("Stacktrace:" +:+ nl) +:+ join lines +:+ nl) ∧
     length lines = length callstack `min` 64 ∧
     length lines ≤ 64 ∧
     ∀ i, i < length lines →
       ∃ message,
         callstack !! i = Some message ∧
         lines !! i = Some (" [" +:+ fmt_02 i +:+ "] " +:+ message +:+ nl) ∧
         fmt_02 i = two_digits i) ∧
  LogStacktrace false symbols_available callstack output =
    Completed (output +:+ ("Stacktrace:" +:+ nl) +:+ (" Not supported." +:+ nl) +:+ nl).
Proof.
  split.
  - set (trace := backtrace callstack lengthof_trace).
    exists (map (λ j, frame_line j (default EmptyString (trace !! j)))
                (seq 0 (length trace))).
    assert (Hlen : length trace = length callstack `min` 64).
    { unfold trace, backtrace, lengthof_trace. rewrite length_take. lia. }
    split; [|split; [|split]].
    + unfold LogStacktrace, backtrace_symbols. fold trace. rewrite LogStacktrace_loop_run.
      unfold format_to. by rewrite !string_app_assoc.
    + by rewrite length_map, length_seq.
    + rewrite length_map, length_seq, Hlen. lia.
    + intros i Hi. rewrite length_map, length_seq in Hi.
      assert (Hi64 : i < 64) by lia.
      assert (Hmsg : trace !! i = callstack !! i)
        by (unfold trace, backtrace, lengthof_trace; by apply lookup_take_lt).
      destruct (lookup_lt_is_Some_2 callstack i) as [message Hm]; [lia|].
      exists message. split; [exact Hm|]. split; [|by apply fmt_02_two_digits].
      rewrite list_lookup_fmap, lookup_seq_lt by done.
      change (0 + i) with i. cbn [fmap option_fmap option_map].
      rewrite Hmsg, Hm. reflexivity.
  - unfold LogStacktrace, format_to. by rewrite !string_app_assoc.
Qed.

(** C7. The failing input. With glibc, when [backtrace] has stored at
    least one frame and [backtrace_symbols] returns a null pointer,
    [LogStacktrace] faults on the first [messages[i]]: the header is all it
    has appended, there is no frame line and no closing empty line. *)
Theorem LogStacktrace_null_symbols_faults (callstack : list string) (output : string) :
  callstack ≠ [] →
  LogStacktrace true false callstack output = Faulted (output +:+ "Stacktrace:" +:+ nl).
Proof.
  intros Hframes. destruct callstack as [|frame rest]; [done|]. reflexivity.
Qed.

Lemma LogStacktrace_null_symbols_faults_witness :
  LogStacktrace true false ["HandleCrash"; "raise"; "main"] "Crash log" =
    Faulted ("Crash logStacktrace:" +:+ nl).
Proof.
  apply (LogStacktrace_null_symbols_faults ["HandleCrash"; "raise"; "main"] "Crash log").
  discriminate.
Defined.

(** C8. [LogOSVersion] is a void function that returns on both paths.
    When [uname] fails (returns a negative value) it appends the one line
    [Could not get OS version: ] followed by [strerror(errno)], and nothing
    that depends on the contents of the [utsname] buffer. When [uname]
    succeeds it appends the header and the four fields: name, release,
    version and machine. *)
Theorem LogOSVersion_lines (uname : uname_call) (output : string) :
  ((uname_ret uname < 0)%Z →
     LogOSVersion uname output =
       output +:+ "Could not get OS version: " +:+ uname_strerror uname +:+ nl ∧
     ∀ name',
       LogOSVersion {| uname_ret := uname_ret uname; uname_name := name';
                       uname_strerror := uname_strerror uname |} output =
       LogOSVersion uname output) ∧
  ((0 ≤ uname_ret uname)%Z →
     LogOSVersion uname output =
       output +:+ "Operating system:" +:+ nl +:+
       " Name:     " +:+ sysname (uname_name uname) +:+ nl +:+
       " Release:  " +:+ release (uname_name uname) +:+ nl +:+
       " Version:  " +:+ version (uname_name uname) +:+ nl +:+
       " Machine:  " +:+ machine (uname_name uname) +:+ nl).
Proof.
  unfold LogOSVersion, format_to. split; intros Hret.
  - cbn [uname_ret uname_strerror].
    assert (Hlt : (uname_ret uname <? 0)%Z = true) by (apply Z.ltb_lt; lia).
    rewrite Hlt. done.
  - assert (Hge : (uname_ret uname <? 0)%Z = false) by (apply Z.ltb_ge; lia).
    rewrite Hge. done.
Qed.

Lemma LogOSVersion_lines_witness :
  LogOSVersion {| uname_ret := -1; uname_name := linux_utsname;
                  uname_strerror := "Bad address" |}
    "Crash log" = "Crash logCould not get OS version: Bad address" +:+ nl ∧
  LogOSVersion {| uname_ret := 0; uname_name := linux_utsname; uname_strerror := "Success" |}
    "Crash log" =
    "Crash logOperating system:" +:+ nl +:+ " Name:     Linux" +:+ nl +:+
    " Release:  6.1.0" +:+ nl +:+ " Version:  #1 SMP" +:+ nl +:+
    " Machine:  x86_64" +:+ nl.
Proof.
  split.
  - apply (proj1 (LogOSVersion_lines
             {| uname_ret := -1; uname_name := linux_utsname;
                uname_strerror := "Bad address" |}
             "Crash log")).
    cbn. lia.
  - apply (proj2 (LogOSVersion_lines
             {| uname_ret := 0; uname_name := linux_utsname; uname_strerror := "Success" |}
             "Crash log")).
    cbn. lia.
Defined.

(** ** How an episode can end *)

Section Discipline.
Context `{sh : signal_h}.

Lemma cleanup_free_nil : cleanup_free [].
Proof. apply not_elem_of_nil. Qed.

Lemma cleanup_free_app (t1 t2 : list event) :
  cleanup_free t1 → cleanup_free t2 → cleanup_free (t1 ++ t2).
Proof. unfold cleanup_free. rewrite elem_of_app. tauto. Qed.

Lemma exit_discipline_prepend {A} (o : outcome A) (t1 t2 : list event) (s' : process) :
  cleanup_free t1 → exit_discipline o t2 s' → exit_discipline o (t1 ++ t2) s'.
Proof.
  intros Hfree. destruct o as [a|[status|env val|sig| |]]; cbn;
    try (by apply cleanup_free_app).
  intros (k & Hst & Hend). exists k. split; [done|].
  destruct k; cbn in *.
  - destruct Hend as (Hfree2 & t0 & Hlast). split; [by apply cleanup_free_app|].
    exists (t1 ++ t0). rewrite <- !app_assoc. destruct Hlast as [-> | ->]; auto.
  - destruct Hend as (t0 & -> & Hfree0). exists (t1 ++ t0).
    split; [by rewrite app_assoc | by apply cleanup_free_app].
  - destruct Hend as (Hfree2 & Hcon). split; [by apply cleanup_free_app | done].
Qed.

Lemma disciplined_quiet {A} (m : M A) : quiet m → disciplined m.
Proof.
  intros Hq s o s' Hrun. destruct (Hq s) as (a & s1 & Hm & Htr).
  rewrite Hm in Hrun. injection Hrun as <- <-.
  exists []. rewrite app_nil_r. split; [done | apply cleanup_free_nil].
Qed.

Lemma disciplined_bind {A B} (m : M A) (k : A → M B) :
  disciplined m → (∀ a, disciplined (k a)) → disciplined (bind m k).
Proof.
  intros Hm Hk s o s' Hrun. unfold bind in Hrun.
  destruct (m s) as [[a|e] s1] eqn:Em.
  - destruct (Hm _ _ _ Em) as (t1 & Ht1 & Hd1). cbn in Hd1.
    destruct (Hk a _ _ _ Hrun) as (t2 & Ht2 & Hd2).
    exists (t1 ++ t2). split; [by rewrite Ht2, Ht1, app_assoc|].
    by apply exit_discipline_prepend.
  - injection Hrun as <- <-.
    destruct (Hm _ _ _ Em) as (t1 & Ht1 & Hd1). exists t1. split; [done|].
    destruct e; exact Hd1.
Qed.

Lemma disciplined_throw {A} (e : abrupt) :
  (∀ status, e ≠ Exit status) → disciplined (throw (A := A) e).
Proof.
  intros Hne s o s' [= <- <-]. exists []. rewrite app_nil_r. split; [done|].
  destruct e as [status| | | |]; cbn; try apply cleanup_free_nil.
  by destruct (Hne status).
Qed.

Lemma disciplined_diverge {A} (m : M noreturn) : disciplined m → disciplined (diverge (A := A) m).
Proof.
  intros Hm. apply disciplined_bind; [exact Hm | intros []].
Qed.

Lemma quiet_ret {A} (a : A) : quiet (ret a).
Proof. intros s. by eexists _, _. Qed.

Lemma quiet_gets {A} (f : process → A) : quiet (gets f).
Proof. intros s. by eexists _, _. Qed.

Lemma quiet_fmt_print (text : string) : quiet (fmt_print text).
Proof. intros s. by eexists _, _. Qed.

Lemma quiet_sigprocmask_unblock (set : sigset_t) : quiet (sigprocmask_unblock set).
Proof. intros s. by eexists _, _. Qed.

Lemma quiet_new_CrashLogUnix (signum : Z) : quiet (new_CrashLogUnix signum).
Proof. intros s. by eexists _, _. Qed.

Lemma quiet_set_current (c : option nat) : quiet (modify (with_current c)).
Proof. intros s. by eexists _, _. Qed.

Lemma quiet_SetSignals (handler : handler_fn) : quiet (SetSignals handler).
Proof. intros s. eexists _, _. split; [apply SetSignals_run | done]. Qed.

Lemma disciplined_log_event (e : event) :
  e ≠ EvAfterCrashLogCleanup → disciplined (log_event e).
Proof.
  intros Hne s o s' [= <- <-]. exists [e]. split; [done|].
  cbn. unfold cleanup_free. rewrite list_elem_of_singleton. congruence.
Qed.

Lemma disciplined_load (p : nat) : disciplined (load_try_execute_active p).
Proof.
  intros s o s' Hrun. unfold load_try_execute_active in Hrun.
  exists []. rewrite app_nil_r.
  destruct (heap s !! p); injection Hrun as <- <-; (split; [done | apply cleanup_free_nil]).
Qed.

Lemma disciplined_store (p : nat) (b : bool) : disciplined (store_try_execute_active p b).
Proof.
  intros s o s' Hrun. unfold store_try_execute_active in Hrun.
  exists []. rewrite app_nil_r.
  destruct (heap s !! p); injection Hrun as <- <-; (split; [done | apply cleanup_free_nil]).
Qed.

Lemma disciplined_setjmp {A} (env : nat) (body : Z → M A) :
  (∀ r, disciplined (body r)) → disciplined (setjmp env body).
Proof.
  intros Hbody s o s' Hrun. unfold setjmp in Hrun.
  destruct (body 0%Z s) as [[a|e] s1] eqn:E0.
  - injection Hrun as <- <-. exact (Hbody _ _ _ _ E0).
  - destruct (Hbody _ _ _ _ E0) as (t1 & Ht1 & Hd1).
    destruct e as [status|env' val|sig| |];
      try (injection Hrun as <- <-; by exists t1).
    destruct (decide (env' = env)) as [->|Hne].
    + destruct (Hbody _ _ _ _ Hrun) as (t2 & Ht2 & Hd2).
      exists (t1 ++ t2). split; [by rewrite Ht2, Ht1, app_assoc|].
      by apply exit_discipline_prepend.
    + injection Hrun as <- <-. by exists t1.
Qed.

Lemma disciplined_deliver (run : handler_fn → Z → M noreturn) (sig : Z) :
  (∀ h signum, disciplined (run h signum)) → disciplined (deliver run sig).
Proof.
  intros Hrun s o s' Hd. unfold deliver in Hd.
  destruct (sigactions s !! sig) as [sa|].
  - destruct (decide (sig ∈ sigmask s)).
    + injection Hd as <- <-. exists []. rewrite app_nil_r.
      split; [done | apply cleanup_free_nil].
    + exact (Hrun _ _ _ _ _ Hd).
  - injection Hd as <- <-. exists []. rewrite app_nil_r.
    split; [done | apply cleanup_free_nil].
Qed.

Lemma disciplined_run_step (raise : Z → M noreturn) (b : step_behaviour) :
  (∀ sig, disciplined (raise sig)) → disciplined (run_step raise b).
Proof.
  intros Hraise. destruct b as [res|sig]; cbn [run_step].
  - apply disciplined_quiet, quiet_ret.
  - apply disciplined_diverge, Hraise.
Qed.

Lemma disciplined_TryExecute (this : nat) (section_name : string) (func : M bool) :
  disciplined func → disciplined (TryExecute this section_name func).
Proof.
  intros Hfunc. unfold TryExecute.
  apply disciplined_bind; [apply disciplined_store | intros _].
  apply disciplined_setjmp. intros r. destruct (negb (r =? 0)%Z).
  - apply disciplined_bind; [apply disciplined_quiet, quiet_fmt_print | intros _].
    apply disciplined_bind; [apply disciplined_quiet, quiet_sigprocmask_unblock | intros _].
    apply disciplined_bind; [apply disciplined_store | intros _].
    apply disciplined_quiet, quiet_ret.
  - apply disciplined_bind; [exact Hfunc | intros res].
    apply disciplined_bind; [apply disciplined_store | intros _].
    apply disciplined_quiet, quiet_ret.
Qed.

Lemma disciplined_MakeCrashLog_model (raise : Z → M noreturn)
    (items : list composition_item) (this : nat) :
  (∀ sig, disciplined (raise sig)) → disciplined (MakeCrashLog_model raise items this).
Proof.
  intros Hraise.
  induction items as [|[label step|sig|label] rest IH]; cbn [MakeCrashLog_model].
  - apply disciplined_quiet, quiet_ret.
  - apply disciplined_bind; [|intros _; exact IH].
    by apply disciplined_TryExecute, disciplined_run_step.
  - apply disciplined_diverge, Hraise.
  - apply disciplined_bind; [|intros _; exact IH].
    apply disciplined_TryExecute, disciplined_diverge.
    by apply disciplined_throw.
Qed.

Lemma disciplined_HandleInternalCrash (signum : Z) : disciplined (HandleInternalCrash signum).
Proof.
  assert (Habort : disciplined (A := noreturn)
                     (fmt_print HandleInternalCrash_notice ;; _exit 1)).
  { intros s o s' [= <- <-]. exists []. rewrite app_nil_r. split; [done|].
    exists CatastrophicFailure. split; [done|]. split; [apply cleanup_free_nil|].
    by exists (console s). }
  unfold HandleInternalCrash.
  apply disciplined_bind; [apply disciplined_quiet, quiet_gets | intros [p|]].
  - apply disciplined_bind; [apply disciplined_load | intros [|]].
    + by apply disciplined_throw.
    + exact Habort.
  - exact Habort.
Qed.

Lemma disciplined_cleanup_exit : disciplined (A := noreturn) (AfterCrashLogCleanup ;; _exit 2).
Proof.
  intros s o s' [= <- <-]. exists [EvAfterCrashLogCleanup]. split; [done|].
  exists ReportWritten. split; [done|]. exists []. split; [done | apply cleanup_free_nil].
Qed.

Lemma disciplined_HandleCrash (c : collaborators) (signum : Z) :
  (∀ this, disciplined (MakeCrashLog c this)) → disciplined (HandleCrash c signum).
Proof.
  intros Hmake s o s' Hrun.
  destruct (current s) as [p|] eqn:Hcur.
  { rewrite (HandleCrash_current_set c signum s p Hcur) in Hrun.
    injection Hrun as <- <-. exists [EvAfterCrashLogCleanup]. split; [done|].
    exists ReportWritten. split; [done|]. exists []. split; [done | apply cleanup_free_nil]. }
  rewrite (HandleCrash_current_null c signum s Hcur) in Hrun.
  destruct (TestEmergency c).
  { injection Hrun as <- <-. exists [EvTestEmergency].
    split; [reflexivity|].
    exists ReportSkipped. split; [done|]. split.
    - unfold cleanup_free. rewrite list_elem_of_singleton. congruence.
    - exists []. by left. }
  destruct (SaveloadCrashWithMissingNewGRFs c).
  { injection Hrun as <- <-.
    exists [EvTestEmergency; EvSaveloadCrashWithMissingNewGRFs].
    split; [reflexivity|].
    exists ReportSkipped. split; [done|]. split.
    - unfold cleanup_free. rewrite !elem_of_cons, elem_of_nil. intros [?|[?|[]]]; congruence.
    - exists [EvTestEmergency]. by right. }
  assert (Hrest : disciplined (A := noreturn)
            (call_MakeCrashLog c (length (heap s)) ;; AfterCrashLogCleanup ;; _exit 2)).
  { apply disciplined_bind; [|intros _; apply disciplined_cleanup_exit].
    unfold call_MakeCrashLog.
    apply disciplined_bind; [by apply disciplined_log_event | intros _; apply Hmake]. }
  destruct (Hrest _ _ _ Hrun) as (t & Ht & Hd).
  cbn [with_current with_heap with_trace trace] in Ht.
  exists ([EvTestEmergency; EvSaveloadCrashWithMissingNewGRFs] ++ t).
  split; [by rewrite Ht, app_assoc|].
  apply exit_discipline_prepend; [|exact Hd].
  unfold cleanup_free. rewrite !elem_of_cons, elem_of_nil. intros [?|[?|[]]]; congruence.
Qed.

Lemma disciplined_run_handler (depth : nat) (ep : episode) (h : handler_fn) (signum : Z) :
  disciplined (run_handler depth ep h signum).
Proof.
  revert h signum. induction depth as [|d IH]; intros [|] signum; cbn [run_handler].
  - by apply disciplined_throw.
  - apply disciplined_HandleInternalCrash.
  - apply disciplined_HandleCrash. intros this. cbn [MakeCrashLog].
    apply disciplined_MakeCrashLog_model. intros sig.
    apply disciplined_deliver, IH.
  - apply disciplined_HandleInternalCrash.
Qed.

End Discipline.

(** C3. The three exit statuses are pairwise different ([exit_status] is
    injective), and whenever a handler of this unit ends the process with
    [_exit], the status is one of the three and tells how the episode went:
    3 after a pre-check with no cleanup, 2 right after the cleanup, 1 right
    after the fatal notice of [HandleInternalCrash]. *)
Theorem exit_statuses_distinct_and_exhaustive `{signal_h} :
  (∀ k1 k2, exit_status k1 = exit_status k2 → k1 = k2) ∧
  (∀ depth ep h signum s status s',
     run_handler depth ep h signum s = (Abrupt (Exit status), s') →
     ∃ k added,
       status = exit_status k ∧ trace s' = trace s ++ added ∧ ended_as k added s').
Proof.
  split.
  - intros [] []; cbn; intros Heq; (reflexivity || discriminate Heq).
  - intros depth ep h signum s status s' Hrun.
    destruct (disciplined_run_handler depth ep h signum _ _ _ Hrun)
      as (added & Htrace & k & Hstatus & Hended).
    by exists k, added.
Qed.

Lemma exit_statuses_distinct_and_exhaustive_witness :
  (∃ k added,
     2%Z = exit_status k ∧
     trace (linux_first_fault bumpy_episode).2 = trace linux_armed ++ added ∧
     ended_as k added (linux_first_fault bumpy_episode).2) ∧
  (∃ k added,
     3%Z = exit_status k ∧
     trace (linux_first_fault skipping_episode).2 = trace linux_armed ++ added ∧
     ended_as k added (linux_first_fault skipping_episode).2) ∧
  (∃ k added,
     1%Z = exit_status k ∧
     trace (linux_first_fault broken_episode).2 = trace linux_armed ++ added ∧
     ended_as k added (linux_first_fault broken_episode).2).
Proof.
  pose proof (@exit_statuses_distinct_and_exhaustive linux_signal_h) as [_ Hexit].
  split; [|split].
  - apply (Hexit 1 bumpy_episode HandleCrash_fn 11%Z linux_armed).
    vm_compute. reflexivity.
  - apply (Hexit 1 skipping_episode HandleCrash_fn 11%Z linux_armed).
    vm_compute. reflexivity.
  - apply (Hexit 1 broken_episode HandleCrash_fn 11%Z linux_armed).
    vm_compute. reflexivity.
Defined.

(** Against C4 as stated: [HandleCrash(SIGSEGV)], entered on Linux right
    after [InitialiseCrashLog] with [TestEmergency()] answering yes, ends
    the process with status 3 and [AfterCrashLogCleanup] was never called;
    and [HandleInternalCrash(SIGSEGV)], entered outside of a guarded step,
    ends the process with status 1 and [AfterCrashLogCleanup] was never
    called. *)
Lemma cleanup_not_on_every_exit :
  ((linux_first_fault skipping_episode).1 = Abrupt (Exit 3) ∧
   EvAfterCrashLogCleanup ∉ trace (linux_first_fault skipping_episode).2) ∧
  ((HandleInternalCrash 11 (linux_reporting false)).1 = Abrupt (Exit 1) ∧
   EvAfterCrashLogCleanup ∉ trace (HandleInternalCrash 11 (linux_reporting false)).2).
Proof.
  split; (split; [vm_compute; reflexivity|]).
  - intros Hin. apply list_elem_of_In in Hin. vm_compute in Hin.
    destruct Hin as [Hin|[]]. discriminate Hin.
  - intros Hin. apply list_elem_of_In in Hin. vm_compute in Hin.
    destruct Hin as [Hin|[Hin|[Hin|[]]]]; discriminate Hin.
Qed.

(** C4, amended. Every exit with status 2 comes right after a call of
    [AfterCrashLogCleanup]. In [HandleCrash] itself, for any collaborators:
    entered with [current] set, it calls the cleanup and exits with 2; entered
    with [current] null and both pre-checks answering no, once [MakeCrashLog]
    has returned it calls the cleanup and exits with 2. And over whole
    episodes: whenever a handler of this unit ends the process with status
    2, the cleanup is the last collaborator call before the exit. *)
Theorem cleanup_before_exit_2 `{signal_h} :
  (∀ c signum s p,
     current s = Some p →
     HandleCrash c signum s =
       (Abrupt (Exit 2), with_trace (trace s ++ [EvAfterCrashLogCleanup]) s)) ∧
  (∀ c signum s s2,
     current s = None →
     TestEmergency c = false → SaveloadCrashWithMissingNewGRFs c = false →
     call_MakeCrashLog c (length (heap s))
       (with_current (Some (length (heap s)))
          (with_heap (heap s ++ [{| signum := signum; try_execute_active := false |}])
             (with_trace (trace s ++ [EvTestEmergency; EvSaveloadCrashWithMissingNewGRFs])
                (rearmed s)))) = (Normal tt, s2) →
     HandleCrash c signum s =
       (Abrupt (Exit 2), with_trace (trace s2 ++ [EvAfterCrashLogCleanup]) s2)) ∧
  (∀ depth ep h signum s s',
     run_handler depth ep h signum s = (Abrupt (Exit 2), s') →
     ∃ before, trace s' = trace s ++ before ++ [EvAfterCrashLogCleanup]).
Proof.
  split; [|split].
  - intros c signum s p Hcur. by apply (HandleCrash_current_set c signum s p).
  - intros c signum s s2 Hcur He Hm Hmake.
    rewrite HandleCrash_current_null by exact Hcur. rewrite He, Hm.
    unfold bind at 1. rewrite Hmake. reflexivity.
  - intros depth ep h signum s s' Hrun.
    destruct (disciplined_run_handler depth ep h signum _ _ _ Hrun)
      as (added & Htrace & k & Hstatus & Hended).
    destruct k; try discriminate Hstatus.
    destruct Hended as (t0 & -> & _). by exists t0.
Qed.

Lemma cleanup_before_exit_2_witness :
  @HandleCrash linux_signal_h (quiet_collaborators false false) 11 (linux_reporting false) =
    (Abrupt (Exit 2),
     with_trace (trace (linux_reporting false) ++ [EvAfterCrashLogCleanup])
       (linux_reporting false)) ∧
  (∃ s', @HandleCrash linux_signal_h (quiet_collaborators false false) 11 linux_armed =
           (Abrupt (Exit 2), s') ∧
         trace s' = [EvTestEmergency; EvSaveloadCrashWithMissingNewGRFs; EvMakeCrashLog 0;
                     EvAfterCrashLogCleanup]) ∧
  (∃ before,
     trace (linux_first_fault bumpy_episode).2 =
       trace linux_armed ++ before ++ [EvAfterCrashLogCleanup]).
Proof.
  pose proof (@cleanup_before_exit_2 linux_signal_h) as (Hset & Hnull & Hepisode).
  split; [|split].
  - apply (Hset (quiet_collaborators false false) 11%Z (linux_reporting false) 0).
    reflexivity.
  - eexists. split.
    + apply (Hnull (quiet_collaborators false false) 11%Z linux_armed);
        reflexivity.
    + reflexivity.
  - apply (Hepisode 1 bumpy_episode HandleCrash_fn 11%Z linux_armed).
    vm_compute. reflexivity.
Defined.

(** ** Registering twice *)

(** X1. Registering a handler for the six signals replaces whatever an
    earlier [SetSignals] registered for them: the state after
    [SetSignals h1] followed by [SetSignals h2] is the state after
    [SetSignals h2] alone, and both calls return the same set. In
    particular, once [HandleCrash] has registered [HandleInternalCrash],
    none of the six signals leads back to [HandleCrash]. *)
Theorem SetSignals_replaces_earlier_registration `{signal_h}
    (h1 h2 : handler_fn) (s : process) :
  (SetSignals h2 (SetSignals h1 s).2).2 = (SetSignals h2 s).2 ∧
  (SetSignals h2 (SetSignals h1 s).2).1 = (SetSignals h1 s).1 ∧
  Forall (λ sig, sa_handler <$> sigactions (SetSignals h2 (SetSignals h1 s).2).2 !! sig
                 = Some h2)
         _signals_to_handle.
Proof.
  rewrite !SetSignals_run. cbn [fst snd with_sigactions sigactions].
  split; [|split].
  - unfold with_sigactions. cbn [heap current sigactions sigmask console trace].
    f_equal. apply map_eq. intros x. rewrite !lookup_foldl_insert.
    destruct (decide (x ∈ _signals_to_handle)); reflexivity.
  - reflexivity.
  - apply Forall_forall. intros x Hx.
    rewrite lookup_foldl_insert, decide_True by done. reflexivity.
Qed.

(** ** More on the OS-fact producers *)

Lemma take_lengthof_trace_app (callstack extra : list string) :
  lengthof_trace ≤ length callstack →
  backtrace (callstack ++ extra) lengthof_trace = backtrace callstack lengthof_trace.
Proof. intros Hlen. unfold backtrace. by apply take_app_le. Qed.

(** X8. Frames beyond the 64th never show: with glibc, a call stack of 64
    or more frames gives the same result, whatever frames lie beyond it and
    whether or not [backtrace_symbols] succeeds. *)
Theorem LogStacktrace_ignores_deep_frames (symbols_available : bool)
    (callstack extra : list string) (output : string) :
  64 ≤ length callstack →
  LogStacktrace true symbols_available (callstack ++ extra) output =
    LogStacktrace true symbols_available callstack output.
Proof.
  intros Hlen. unfold LogStacktrace.
  by rewrite take_lengthof_trace_app.
Qed.

Lemma LogStacktrace_ignores_deep_frames_witness :
  LogStacktrace true true (replicate 64 "frame" ++ ["main"; "_start"]) "Crash log" =
  LogStacktrace true true (replicate 64 "frame") "Crash log".
Proof.
  apply (LogStacktrace_ignores_deep_frames true (replicate 64 "frame") ["main"; "_start"]).
  vm_compute. reflexivity.
Defined.

(** ** The footprint of a guarded step *)

Section Footprint.
Context `{sh : signal_h}.

Lemma alter_flag_round (objects : list CrashLogUnix) (p : nat) (o : CrashLogUnix) :
  objects !! p = Some o → try_execute_active o = false →
  alter (assign_try_execute_active false) p
    (alter (assign_try_execute_active true) p objects) = objects.
Proof.
  intros Ho Hflag. apply list_eq. intros i. rewrite !list_lookup_alter.
  destruct (decide (p = i)) as [<-|]; [|reflexivity].
  rewrite decide_True by done. rewrite Ho. destruct o as [sg fl]. cbn in *. by subst.
Qed.

Lemma flag_set_round (this : nat) (s : process) (o : CrashLogUnix) :
  heap s !! this = Some o → try_execute_active o = false →
  flag_set this false (flag_set this true s) = s.
Proof.
  intros Ho Hflag. unfold flag_set, with_heap. cbn [heap current sigactions sigmask
    console trace]. rewrite (alter_flag_round _ _ _ Ho Hflag). by destruct s.
Qed.

Lemma unblock_round (blocked sigs : sigset_t) (sig : Z) :
  sig ∈ sigs → (∀ x, x ∈ sigs → x ∉ blocked) →
  (blocked ∪ sigs ∪ {[sig]}) ∖ sigs = blocked.
Proof.
  intros Hsig Hfree. apply set_eq. intros x.
  rewrite elem_of_difference, !elem_of_union, elem_of_singleton. split.
  - intros [[[Hx|Hx]|Hx] Hnot]; [exact Hx | by destruct Hnot | subst x; by destruct Hnot].
  - intros Hx. split; [by left; left|]. intros Hin. by apply (Hfree x Hin).
Qed.

Lemma guarding_reporting (this : nat) (s : process) : guarding this s → reporting this s.
Proof.
  intros (Hcur & (o & Ho & _) & Hsigs). split; [exact Hcur|]. split; [by exists o|].
  intros sig Hsig. destruct (Hsigs sig Hsig) as [Hblk Hsa]. split; [exact Hblk|].
  eexists. split; [exact Hsa | reflexivity].
Qed.

Lemma guarding_with_console (this : nat) (lines : list string) (s : process) :
  guarding this s → guarding this (with_console lines s).
Proof. intros Hg. exact Hg. Qed.

Lemma TryExecute_returning_step (this : nat) (label : string) (res : bool) (s : process) :
  guarding this s →
  TryExecute this label (ret res) s = (Normal res, s).
Proof.
  intros (Hcur & (o & Ho & Hflag) & Hsigs).
  rewrite TryExecute_run, Ho. unfold ret.
  assert (Hl : is_Some (heap (flag_set this true s) !! this))
    by (apply flag_set_live; eauto).
  destruct Hl as [o1 ->]. by rewrite (flag_set_round this s o).
Qed.

Lemma TryExecute_faulting_step (depth : nat) (ep : episode) (this : nat)
    (label : string) (sig : Z) (s : process) :
  guarding this s → sig ∈ _signals_to_handle →
  TryExecute this label (run_step (deliver (run_handler depth ep)) (StepFaults sig)) s =
    (Normal false, with_console (console s ++ [TryExecute_diagnostic label]) s).
Proof.
  intros Hg Hsig. pose proof Hg as (Hcur & (o & Ho & Hflag) & Hsigs).
  destruct (Hsigs sig Hsig) as [Hblk Hsa].
  rewrite TryExecute_run, Ho.
  rewrite (guarded_fault_jumps depth ep sig this s _ Hcur (ltac:(eauto)) Hsa eq_refl Hblk).
  rewrite decide_True by done. cbn [with_sigmask heap sa_mask].
  assert (Hl : is_Some (heap (flag_set this true s) !! this))
    by (apply flag_set_live; eauto).
  destruct Hl as [o1 ->]. f_equal.
  unfold TryExecute_resumed, flag_set, with_heap, with_sigmask, with_console.
  cbn [heap current sigactions sigmask console trace].
  rewrite (alter_flag_round _ _ _ Ho Hflag).
  rewrite unblock_round.
  - reflexivity.
  - by apply elem_of_build_sigs.
  - intros x Hx. apply elem_of_build_sigs in Hx. by destruct (Hsigs x Hx).
Qed.

Lemma HandleInternalCrash_between_steps (depth : nat) (ep : episode) (this : nat)
    (sig : Z) (s : process) :
  guarding this s → sig ∈ _signals_to_handle →
  deliver (run_handler depth ep) sig s =
    (Abrupt (Exit 1),
     with_console (console s ++ [HandleInternalCrash_notice])
       (with_sigmask (sigmask s ∪ build_sigs ∪ {[sig]}) s)).
Proof.
  intros (Hcur & (o & Ho & Hflag) & Hsigs) Hsig.
  destruct (Hsigs sig Hsig) as [Hblk Hsa].
  unfold deliver. rewrite Hsa, decide_False by done. cbn [sa_handler sa_mask].
  rewrite run_handler_internal.
  rewrite (HandleInternalCrash_live sig
             (with_sigmask (sigmask s ∪ build_sigs ∪ {[sig]}) s) this o Hcur Ho), Hflag.
  reflexivity.
Qed.

End Footprint.

(** Discharges [guarding 0 (linux_reporting false)] by evaluation. *)
Ltac linux_guarding :=
  split; [reflexivity|]; split;
  [ eexists; split; reflexivity
  | let sig := fresh "sig" in
    let Hsig := fresh "Hsig" in
    intros sig Hsig; apply list_elem_of_In in Hsig; vm_compute in Hsig;
    repeat (destruct Hsig as [Hsig|Hsig]; [subst sig|]); try (by destruct Hsig);
    (split; [apply not_elem_of_empty | vm_compute; reflexivity]) ].



(** X4. Guarded steps do not nest. When a guarded step itself runs a
    guarded step on the same report, the inner [TryExecute] clears the flag
    on its way out; a fault that hits the outer step after that is no longer
    resumed: [HandleInternalCrash] prints its notice and ends the process
    with status 1, although the outer step was started under guard. *)
Theorem nested_TryExecute_loses_guard `{signal_h} (depth : nat) (ep : episode)
    (this : nat) (outer inner : string) (res : bool) (sig : Z) (s : process) :
  guarding this s → sig ∈ _signals_to_handle →
  ∃ s',
    TryExecute this outer
      (TryExecute this inner (ret res) ;;
       run_step (deliver (run_handler depth ep)) (StepFaults sig)) s =
      (Abrupt (Exit 1), s') ∧
    console s' = console s ++ [HandleInternalCrash_notice] ∧
    trace s' = trace s.
Proof.
  intros Hg Hsig. pose proof Hg as (Hcur & (o & Ho & Hflag) & Hsigs).
  rewrite TryExecute_run, Ho. unfold bind at 1.
  set (s1 := flag_set this true s).
  assert (Ho1 : heap s1 !! this = Some (assign_try_execute_active true o)).
  { subst s1. by rewrite flag_set_lookup, Ho. }
  rewrite TryExecute_run, Ho1. unfold ret at 1.
  assert (Hl : is_Some (heap (flag_set this true s1) !! this))
    by (apply flag_set_live; eauto).
  destruct Hl as [o2 Ho2]. rewrite Ho2.
  set (s2 := flag_set this false (flag_set this true s1)).
  assert (Hg2 : guarding this s2).
  { split; [exact Hcur|]. split; [|exact Hsigs].
    exists (assign_try_execute_active false o2). split; [|reflexivity].
    subst s2. by rewrite flag_set_lookup, Ho2. }
  cbn [run_step]. unfold diverge, bind.
  rewrite (HandleInternalCrash_between_steps depth ep this sig s2 Hg2 Hsig).
  eexists. split; [reflexivity|]. split; reflexivity.
Qed.

Lemma nested_TryExecute_loses_guard_witness :
  ∃ s',
    @TryExecute linux_signal_h 0 "outer"
      (@TryExecute linux_signal_h 0 "inner" (ret true) ;;
       run_step (deliver (@run_handler linux_signal_h 0 bumpy_episode)) (StepFaults 11))
      (linux_reporting false) = (Abrupt (Exit 1), s') ∧
    console s' = [HandleInternalCrash_notice].
Proof.
  destruct (@nested_TryExecute_loses_guard linux_signal_h 0 bumpy_episode 0
              "outer" "inner" true 11%Z (linux_reporting false))
    as (s' & Hrun & Hcon & _).
  - linux_guarding.
  - apply list_elem_of_In. vm_compute. tauto.
  - exists s'. split; [exact Hrun | exact Hcon].
Defined.

(** X3. The guard works for the current report only. [HandleInternalCrash]
    looks at [CrashLogUnix::current], not at the object whose [TryExecute]
    is running: when [current] is null, or points to another object whose
    flag is false, a fault inside a guarded step is not resumed but ends the
    process with status 1, and the flag of the guarded object is left
    true. *)
Theorem TryExecute_guards_only_current `{signal_h} (depth : nat) (ep : episode)
    (this : nat) (label : string) (sig : Z) (s : process) (sa : sigaction_t) :
  is_Some (heap s !! this) →
  current s = None ∨
    (∃ q o, current s = Some q ∧ q ≠ this ∧ heap s !! q = Some o ∧
            try_execute_active o = false) →
  sigactions s !! sig = Some sa → sa_handler sa = HandleInternalCrash_fn →
  sig ∉ sigmask s →
  ∃ s',
    TryExecute this label (run_step (deliver (run_handler depth ep)) (StepFaults sig)) s =
      (Abrupt (Exit 1), s') ∧
    console s' = console s ++ [HandleInternalCrash_notice] ∧
    try_execute_active <$> heap s' !! this = Some true.
Proof.
  intros [o Ho] Hother Hsa Hh Hblk.
  rewrite TryExecute_run, Ho. cbn [run_step]. unfold diverge, bind, deliver.
  cbn [flag_set with_heap sigactions sigmask]. rewrite Hsa, Hh, decide_False by done.
  rewrite run_handler_internal.
  match goal with |- context [HandleInternalCrash sig ?st] => set (s1 := st) end.
  assert (Hflag : try_execute_active <$> heap s1 !! this = Some true).
  { subst s1. unfold flag_set, with_sigmask, with_heap. cbn [heap].
    rewrite list_lookup_alter, decide_True by done. by rewrite Ho. }
  destruct Hother as [Hnull | (q & oq & Hcur & Hne & Hoq & Hfq)].
  - rewrite (HandleInternalCrash_null sig s1 Hnull).
    eexists. split; [reflexivity|]. split; [reflexivity | exact Hflag].
  - assert (Hoq1 : heap s1 !! q = Some oq).
    { subst s1. unfold flag_set, with_sigmask, with_heap. cbn [heap].
      rewrite list_lookup_alter, decide_False by done. exact Hoq. }
    rewrite (HandleInternalCrash_live sig s1 q oq Hcur Hoq1), Hfq.
    eexists. split; [reflexivity|]. split; [reflexivity | exact Hflag].
Qed.

Lemma TryExecute_guards_only_current_witness :
  ∃ s',
    @TryExecute linux_signal_h 0 "os"
      (run_step (deliver (@run_handler linux_signal_h 0 bumpy_episode)) (StepFaults 11))
      (with_current None (linux_reporting false)) = (Abrupt (Exit 1), s') ∧
    try_execute_active <$> heap s' !! 0 = Some true.
Proof.
  destruct (@TryExecute_guards_only_current linux_signal_h 0 bumpy_episode 0 "os" 11%Z
              (with_current None (linux_reporting false))
              {| sa_handler := HandleInternalCrash_fn;
                 sa_mask := @build_sigs linux_signal_h;
                 sa_flags := 268435456 |})
    as (s' & Hrun & _ & Hflag).
  - eexists; reflexivity.
  - left; reflexivity.
  - vm_compute; reflexivity.
  - reflexivity.
  - apply not_elem_of_empty.
  - exists s'. split; [exact Hrun | exact Hflag].
Defined.

(** ** Whole episodes *)

Section Episodes.
Context `{sh : signal_h}.

Lemma MakeCrashLog_model_guarded_prefix (depth : nat) (ep : episode) (this : nat)
    (pre tail : list composition_item) (s : process) :
  guarding this s → Forall within_guard pre →
  MakeCrashLog_model (deliver (run_handler depth ep)) (pre ++ tail) this s =
    MakeCrashLog_model (deliver (run_handler depth ep)) tail this
      (with_console (console s ++ diagnostics_of pre) s).
Proof.
  intros Hg Hall. revert s Hg.
  induction Hall as [|item rest Hitem _ IH]; intros s Hg.
  - cbn [app diagnostics_of]. rewrite app_nil_r. by destruct s.
  - destruct item as [label [res|sig]|sig|label]; [| |destruct Hitem|destruct Hitem].
    + cbn [app MakeCrashLog_model run_step diagnostics_of]. unfold bind at 1.
      rewrite (TryExecute_returning_step this label res s Hg). by apply IH.
    + cbn [app MakeCrashLog_model diagnostics_of]. unfold bind at 1.
      rewrite (TryExecute_faulting_step depth ep this label sig s Hg Hitem).
      rewrite IH by exact Hg.
      unfold with_console. cbn [heap current sigactions sigmask console trace].
      by rewrite <- app_assoc.
Qed.


(** The state in which [HandleCrash] calls [MakeCrashLog]. *)
Lemma guarding_new_report (signum : Z) (added : list event) (s : process) :
  guarding (length (heap s))
    (with_trace (trace s ++ added)
       (with_current (Some (length (heap s)))
          (with_heap (heap s ++ [{| signum := signum; try_execute_active := false |}])
             (rearmed s)))).
Proof.
  split; [reflexivity|]. split.
  - exists {| signum := signum; try_execute_active := false |}. split; [|reflexivity].
    cbn [with_trace with_current with_heap heap].
    rewrite lookup_app_r by done. by rewrite Nat.sub_diag.
  - intros sig Hsig. cbn [with_current with_heap with_trace sigmask sigactions].
    unfold rearmed. rewrite SetSignals_run.
    cbn [snd with_sigmask with_sigactions sigmask sigactions]. split.
    + rewrite elem_of_difference, elem_of_build_sigs. tauto.
    + by rewrite lookup_foldl_insert, decide_True.
Qed.

Lemma HandleCrash_to_MakeCrashLog (depth : nat) (ep : episode) (signum : Z) (s : process) :
  current s = None → emergency ep = false → missing_newgrfs ep = false →
  run_handler (S depth) ep HandleCrash_fn signum s =
    (MakeCrashLog_model (deliver (run_handler depth ep)) (items ep) (length (heap s)) ;;
     AfterCrashLogCleanup ;; _exit 2)
      (with_trace (trace s ++ [EvTestEmergency; EvSaveloadCrashWithMissingNewGRFs;
                               EvMakeCrashLog (length (heap s))])
         (with_current (Some (length (heap s)))
            (with_heap (heap s ++ [{| signum := signum; try_execute_active := false |}])
               (rearmed s)))).
Proof.
  intros Hcur He Hm. cbn [run_handler].
  rewrite HandleCrash_current_null by exact Hcur.
  cbn [TestEmergency SaveloadCrashWithMissingNewGRFs]. rewrite He, Hm.
  unfold call_MakeCrashLog, log_event, modify, bind.
  cbn [MakeCrashLog with_trace with_current with_heap heap current sigactions sigmask
       console trace].
  rewrite <- app_assoc. reflexivity.
Qed.


Lemma HandleCrash_fault_outside_guard (depth : nat) (ep : episode) (signum sig : Z)
    (pre rest : list composition_item) (s : process) :
  current s = None → emergency ep = false → missing_newgrfs ep = false →
  items ep = pre ++ FaultOutsideGuard sig :: rest →
  Forall within_guard pre → sig ∈ _signals_to_handle →
  run_handler (S depth) ep HandleCrash_fn signum s =
    (Abrupt (Exit 1),
     with_console (console s ++ diagnostics_of pre ++ [HandleInternalCrash_notice])
       (with_sigmask (sigmask s ∖ build_sigs ∪ build_sigs ∪ {[sig]})
          (with_trace (trace s ++ [EvTestEmergency; EvSaveloadCrashWithMissingNewGRFs;
                                   EvMakeCrashLog (length (heap s))])
             (with_current (Some (length (heap s)))
                (with_heap (heap s ++ [{| signum := signum;
                                          try_execute_active := false |}])
                   (rearmed s)))))).
Proof.
  intros Hcur He Hm Hitems Hpre Hsig.
  rewrite HandleCrash_to_MakeCrashLog by done. unfold bind at 1. rewrite Hitems.
  rewrite MakeCrashLog_model_guarded_prefix by (apply guarding_new_report || exact Hpre).
  cbn [MakeCrashLog_model]. unfold diverge, bind.
  erewrite HandleInternalCrash_between_steps.
  - f_equal. destruct (rearmed_frame s) as (_ & _ & Hcon & _).
    assert (Hmask : sigmask (rearmed s) = sigmask s ∖ build_sigs)
      by (unfold rearmed; by rewrite SetSignals_run).
    unfold with_console, with_sigmask, with_trace, with_current, with_heap.
    cbn [heap current sigactions sigmask console trace].
    by rewrite Hcon, Hmask, <- app_assoc.
  - apply (guarding_with_console (length (heap s))), guarding_new_report.
  - exact Hsig.
Qed.




End Episodes.



(** X6. A fault on one of the six signals raised by report composition
    outside of any guarded step ends the process with status 1: the console
    shows the diagnostics of the steps before it and then the fatal notice,
    the items after it are never reached, and [AfterCrashLogCleanup] is not
    called. *)
Theorem fault_outside_guard_is_catastrophic `{signal_h} (depth : nat) (ep : episode)
    (signum sig : Z) (pre rest : list composition_item) (s : process) :
  current s = None → emergency ep = false → missing_newgrfs ep = false →
  items ep = pre ++ FaultOutsideGuard sig :: rest →
  Forall within_guard pre → sig ∈ _signals_to_handle →
  ∃ s',
    run_handler (S depth) ep HandleCrash_fn signum s = (Abrupt (Exit 1), s') ∧
    console s' = console s ++ diagnostics_of pre ++ [HandleInternalCrash_notice] ∧
    trace s' = trace s ++ [EvTestEmergency; EvSaveloadCrashWithMissingNewGRFs;
                           EvMakeCrashLog (length (heap s))] ∧
    heap s' = heap s ++ [{| signum := signum; try_execute_active := false |}] ∧
    current s' = Some (length (heap s)).
Proof.
  intros Hcur He Hm Hitems Hpre Hsig. eexists.
  split; [by apply (HandleCrash_fault_outside_guard depth ep signum sig pre rest)|].
  repeat split.
Qed.

Lemma fault_outside_guard_is_catastrophic_witness :
  ∃ s',
    @run_handler linux_signal_h 1 broken_episode HandleCrash_fn 11 linux_armed =
      (Abrupt (Exit 1), s') ∧
    console s' = [HandleInternalCrash_notice] ∧
    trace s' = [EvTestEmergency; EvSaveloadCrashWithMissingNewGRFs; EvMakeCrashLog 0].
Proof.
  destruct (@fault_outside_guard_is_catastrophic linux_signal_h 0 broken_episode
              11%Z 11%Z [Guarded "os" (StepReturns true)] [] linux_armed)
    as (s' & Hrun & Hcon & Htrace & _).
  - reflexivity.
  - reflexivity.
  - reflexivity.
  - reflexivity.
  - repeat constructor.
  - apply list_elem_of_In. vm_compute. tauto.
  - exists s'. split; [exact Hrun|]. split; [exact Hcon | exact Htrace].
Defined.



(** ** Every episode ends the process *)

Section NoEscape.
Context `{sh : signal_h}.

Lemma run_handler_HandleCrash (depth : nat) (ep : episode) (signum : Z) :
  run_handler (S depth) ep HandleCrash_fn signum =
    HandleCrash
      {| TestEmergency := emergency ep;
         SaveloadCrashWithMissingNewGRFs := missing_newgrfs ep;
         MakeCrashLog := MakeCrashLog_model (deliver (run_handler depth ep)) (items ep) |}
      signum.
Proof. reflexivity. Qed.

Lemma between_steps_flag_clear (this : nat) (s : process) :
  current s = Some this → is_Some (heap s !! this) →
  between_steps this (flag_set this false s).
Proof.
  intros Hcur [o Ho]. split; [exact Hcur|].
  exists (assign_try_execute_active false o). split; [|reflexivity].
  by rewrite flag_set_lookup, Ho.
Qed.

Lemma deliver_between_steps (depth : nat) (ep : episode) (this : nat) (sig : Z)
    (s : process) :
  between_steps this s →
  process_over (deliver (run_handler (S depth) ep) sig s).1.
Proof.
  intros (Hcur & o & Ho & Hflag). unfold deliver.
  destruct (sigactions s !! sig) as [sa|]; [|exact I].
  destruct (decide (sig ∈ sigmask s)); [exact I|].
  destruct (sa_handler sa).
  - rewrite run_handler_HandleCrash. by erewrite HandleCrash_current_set.
  - rewrite run_handler_internal.
    rewrite (HandleInternalCrash_live sig
               (with_sigmask (sigmask s ∪ sa_mask sa ∪ {[sig]}) s) this o Hcur Ho), Hflag.
    exact I.
Qed.

Lemma TryExecute_returns_or_ends (depth : nat) (ep : episode) (this : nat)
    (label : string) (step : step_behaviour) (s : process) :
  between_steps this s →
  (∃ res s',
     TryExecute this label (run_step (deliver (run_handler (S depth) ep)) step) s =
       (Normal res, s') ∧ between_steps this s') ∨
  process_over
    (TryExecute this label (run_step (deliver (run_handler (S depth) ep)) step) s).1.
Proof.
  intros (Hcur & o & Ho & Hflag). rewrite TryExecute_run, Ho.
  assert (Ho1 : heap (flag_set this true s) !! this =
                Some (assign_try_execute_active true o))
    by (by rewrite flag_set_lookup, Ho).
  destruct step as [res|sig].
  - left. cbn [run_step]. unfold ret. rewrite Ho1. eexists _, _. split; [reflexivity|].
    apply between_steps_flag_clear; [exact Hcur | eauto].
  - cbn [run_step]. unfold diverge, bind, deliver.
    cbn [flag_set with_heap sigactions sigmask].
    destruct (sigactions s !! sig) as [sa|]; [|right; exact I].
    destruct (decide (sig ∈ sigmask s)); [right; exact I|].
    destruct (sa_handler sa).
    + right. rewrite run_handler_HandleCrash. by erewrite HandleCrash_current_set.
    + left. rewrite run_handler_internal.
      match goal with |- context [HandleInternalCrash sig ?st] => set (s1 := st) end.
      assert (Hobj : heap s1 !! this = Some (assign_try_execute_active true o)) by exact Ho1.
      rewrite (HandleInternalCrash_live sig s1 this _ Hcur Hobj).
      cbn [assign_try_execute_active try_execute_active].
      rewrite decide_True by done. rewrite Hobj.
      eexists _, _. split; [reflexivity|].
      unfold TryExecute_resumed. apply between_steps_flag_clear; [exact Hcur|].
      cbn [with_sigmask with_console heap]. eauto.
Qed.

Lemma MakeCrashLog_model_returns_or_ends (depth : nat) (ep : episode) (this : nat)
    (composition : list composition_item) (s : process) :
  between_steps this s →
  (∃ s', MakeCrashLog_model (deliver (run_handler (S depth) ep)) composition this s =
           (Normal tt, s')) ∨
  process_over
    (MakeCrashLog_model (deliver (run_handler (S depth) ep)) composition this s).1.
Proof.
  revert s. induction composition as [|[label step|sig|label] rest IH]; intros s Hb.
  - left. by exists s.
  - cbn [MakeCrashLog_model]. unfold bind.
    destruct (TryExecute_returns_or_ends depth ep this label step s Hb)
      as [(res & s1 & Hrun & Hb1) | Hover].
    + rewrite Hrun. by apply IH.
    + right.
      destruct (TryExecute this label _ s) as [[res|e] s1]; [destruct Hover | exact Hover].
  - right. cbn [MakeCrashLog_model]. unfold diverge, bind.
    pose proof (deliver_between_steps depth ep this sig s Hb) as Hover.
    destruct (deliver _ sig s) as [[[]|e] s1]. exact Hover.
  - right. cbn [MakeCrashLog_model]. unfold bind at 1.
    destruct Hb as (_ & o & Ho & _). by rewrite TryExecute_run, Ho.
Qed.

Lemma HandleCrash_ends_process (depth : nat) (ep : episode) (signum : Z) (s : process) :
  process_over (run_handler (S (S depth)) ep HandleCrash_fn signum s).1.
Proof.
  destruct (current s) as [p|] eqn:Hcur.
  { rewrite run_handler_HandleCrash. by erewrite HandleCrash_current_set. }
  destruct (emergency ep) eqn:He; [|destruct (missing_newgrfs ep) eqn:Hm].
  - rewrite run_handler_HandleCrash, HandleCrash_current_null by exact Hcur.
    cbn [TestEmergency]. by rewrite He.
  - rewrite run_handler_HandleCrash, HandleCrash_current_null by exact Hcur.
    cbn [TestEmergency SaveloadCrashWithMissingNewGRFs]. by rewrite He, Hm.
  - rewrite HandleCrash_to_MakeCrashLog by done. unfold bind at 1.
    match goal with |- context [MakeCrashLog_model _ _ ?this ?st] =>
      destruct (MakeCrashLog_model_returns_or_ends depth ep this (items ep) st)
        as [(s' & Hrun) | Hover]
    end.
    + destruct (guarding_new_report signum
                  [EvTestEmergency; EvSaveloadCrashWithMissingNewGRFs;
                   EvMakeCrashLog (length (heap s))] s) as (Hc & Ho & _).
      split; [exact Hc | exact Ho].
    + rewrite Hrun. exact I.
    + destruct (MakeCrashLog_model _ _ _ _) as [[[]|e] s1]; [destruct Hover | exact Hover].
Qed.

End NoEscape.

(** X10. Whatever happens during report composition (steps that
    return, steps that fault on any signal, faults outside of any step) and
    whatever state the process is in, [HandleCrash] ends the process: it ends
    in [_exit] or in the kernel's default action for a signal. It never
    returns to the code that faulted, no [longjmp] leaves it, and it never
    reads the flag through a dangling pointer. Two stacked [HandleCrash]
    frames are all the model needs. *)
Theorem HandleCrash_always_ends_the_process `{signal_h} (depth : nat) (ep : episode)
    (signum : Z) (s : process) :
  ∃ s',
    (∃ status, run_handler (S (S depth)) ep HandleCrash_fn signum s =
                 (Abrupt (Exit status), s') ∧
               (status = 1 ∨ status = 2 ∨ status = 3)%Z) ∨
    (∃ sig, run_handler (S (S depth)) ep HandleCrash_fn signum s = (Abrupt (Killed sig), s')).
Proof.
  pose proof (HandleCrash_ends_process depth ep signum s) as Hover.
  destruct (run_handler (S (S depth)) ep HandleCrash_fn signum s) as [o s'] eqn:Hrun.
  exists s'. destruct o as [[]|[status|env val|sig| |]]; try destruct Hover.
  - left. exists status. split; [reflexivity|].
    destruct (disciplined_run_handler _ _ _ _ _ _ _ Hrun) as (t & _ & k & -> & _).
    destruct k; cbn; auto.
  - right. by exists sig.
Qed.
